(** * Email validator: format checks and MX gating

    A shallow embedding of [email_validator/validator.py] and
    [email_validator/dns_service.py], followed by the properties of the
    validation engine.

    Python strings are sequences of Unicode code points; a candidate
    address is a [list N].  Messages built by the validator (errors,
    warnings, type names) are ASCII literals and are kept as [string]. *)

From Stdlib Require Import NArith ZArith Ascii String List Bool Lia.
From stdpp Require Import gmap strings list.

Local Open Scope N_scope.

(** ** Python strings and values *)

Module Py.

Abbreviation char := N.
Abbreviation str := (list char).

Definition ord (a : ascii) : char := N_of_ascii a.

(** A string literal of the source, as code points. *)
Definition lit (s : string) : str := map ord (list_ascii_of_string s).

(** [str.isspace] on one code point: the table of
    [_PyUnicode_IsWhitespace]. *)
Definition isspace (c : char) : bool :=
  ((0x09 <=? c) && (c <=? 0x0D)) || ((0x1C <=? c) && (c <=? 0x20))
  || (c =? 0x85) || (c =? 0xA0) || (c =? 0x1680)
  || ((0x2000 <=? c) && (c <=? 0x200A))
  || (c =? 0x2028) || (c =? 0x2029) || (c =? 0x202F) || (c =? 0x205F)
  || (c =? 0x3000).

Fixpoint lstrip (s : str) : str :=
  match s with
  | c :: s' => if isspace c then lstrip s' else s
  | [] => []
  end.

Definition rstrip (s : str) : str := rev (lstrip (rev s)).

(** [s.strip()] *)
Definition strip (s : str) : str := rstrip (lstrip s).

Fixpoint startswith (s prefix : str) {struct prefix} : bool :=
  match prefix, s with
  | [], _ => true
  | p :: prefix', c :: s' => (c =? p) && startswith s' prefix'
  | _ :: _, [] => false
  end.

Definition endswith (s suffix : str) : bool := startswith (rev s) (rev suffix).

(** [sub in s] *)
Fixpoint contains (sub s : str) : bool :=
  startswith s sub
  || match s with
     | [] => false
     | _ :: s' => contains sub s'
     end.

(** [s.count(c)] for a one-character [c]. *)
Definition count (c : char) (s : str) : nat := length (filter (λ x, x = c) s).

(** The two sides of the last occurrence of [sep], if there is one. *)
Fixpoint rpartition (sep : char) (s : str) : option (str * str) :=
  match s with
  | [] => None
  | c :: s' =>
      match rpartition sep s' with
      | Some (a, b) => Some (c :: a, b)
      | None => if c =? sep then Some ([], s') else None
      end
  end.

(** [s.rsplit(sep, 1)] *)
Definition rsplit1 (sep : char) (s : str) : list str :=
  match rpartition sep s with
  | Some (a, b) => [a; b]
  | None => [s]
  end.

(** The values a caller can hand to the validator.  An object of any
    other type is seen by the validator only through the name of its type
    and its truth value. *)
#[warnings="-register-all"]
Inductive value : Type :=
  | VNone
  | VBool (b : bool)
  | VInt (z : Z)
  | VStr (s : str)
  | VList (l : list value)
  | VObject (type_name : string) (truth : bool).

(** [bool(v)] *)
Definition truthy (v : value) : bool :=
  match v with
  | VNone => false
  | VBool b => b
  | VInt z => negb (z =? 0)%Z
  | VStr s => negb (length s =? 0)%nat
  | VList l => negb (length l =? 0)%nat
  | VObject _ t => t
  end.

(** [type(v).__name__] *)
Definition type_name (v : value) : string :=
  match v with
  | VNone => "NoneType"
  | VBool _ => "bool"
  | VInt _ => "int"
  | VStr _ => "str"
  | VList _ => "list"
  | VObject n _ => n
  end.

(** [isinstance(v, str)] *)
Definition is_str (v : value) : bool :=
  match v with VStr _ => true | _ => false end.

End Py.

(** ** The fragment of [re] the validator uses *)

Module Re.
Import Py.

Inductive regex : Type :=
  | Chr (p : char → bool)                       (* a character class *)
  | Seq (r1 r2 : regex)
  | Alt (r1 r2 : regex)                         (* r1|r2 *)
  | Rep (lo : nat) (hi : option nat) (r : regex) (* greedy r{lo,hi} *)
  | Group (name : string) (r : regex)           (* (?P<name>r) *)
  | Dollar.                                     (* $ *)

Abbreviation groups := (gmap string str).

Definition below (hi : option nat) (n : nat) : bool :=
  match hi with
  | None => true
  | Some h => (n <? h)%nat
  end.

(** [s] without its suffix [rest]: the text consumed between the two. *)
Definition consumed (s rest : str) : str := take (length s - length rest)%nat s.

(** One element of the backtracking search: the input left over and the
    groups set so far. *)
Abbreviation state := (str * groups)%type.

(** The greedy loop of [r{lo,hi}] after [n] rounds of its body: one more
    round is tried first, stopping here comes last.  A round that consumes
    nothing is not repeated, so [length s] rounds are enough and [fuel]
    starts there. *)
Fixpoint rounds (body : str → groups → list state) (lo : nat) (hi : option nat)
    (fuel n : nat) (s : str) (g : groups) {struct fuel} : list state :=
  match fuel with
  | O => []
  | S fuel' =>
      if below hi n then
        flat_map
          (λ x, if (length x.1 <? length s)%nat
                then rounds body lo hi fuel' (S n) x.1 x.2 else [])
          (body s g)
      else []
  end ++ (if (lo <=? n)%nat then [(s, g)] else []).

(** Backtracking matcher.  [run r s g] lists, in the order in which the
    engine tries them, the ways [r] can match at the front of [s].
    Alternation tries its left branch first. *)
Fixpoint run (r : regex) (s : str) (g : groups) : list state :=
  match r with
  | Chr p =>
      match s with
      | c :: s' => if p c then [(s', g)] else []
      | [] => []
      end
  | Seq r1 r2 => flat_map (λ x, run r2 x.1 x.2) (run r1 s g)
  | Alt r1 r2 => run r1 s g ++ run r2 s g
  | Rep lo hi r1 => rounds (run r1) lo hi (length s) O s g
  | Group name r1 =>
      map (λ x, (x.1, <[name := consumed s x.1]> x.2)) (run r1 s g)
  | Dollar =>
      match s with
      | [] => [(s, g)]
      | [c] => if c =? 0x0A then [(s, g)] else []
      | _ => []
      end
  end.

(** [pattern.match(s)]: the first way the whole pattern matches at the
    start of [s]; the result holds the groups. *)
Definition re_match (r : regex) (s : str) : option groups :=
  snd <$> head (run r s ∅).

(** [m.group(name)] for a group that took part in the match. *)
Definition group (m : groups) (name : string) : str := default [] (m !! name).

(** *** Character classes *)

Definition range (lo hi : ascii) (c : char) : bool :=
  (ord lo <=? c) && (c <=? ord hi).

Definition one_of (s : string) (c : char) : bool :=
  existsb (N.eqb c) (lit s).

Definition dquote : char := 0x22.
Definition backslash : char := 0x5C.
Definition newline : char := 0x0A.

Definition chr (a : ascii) : regex := Chr (N.eqb (ord a)).
Definition star (r : regex) : regex := Rep 0 None r.
Definition plus (r : regex) : regex := Rep 1 None r.
Definition opt (r : regex) : regex := Rep 0 (Some 1%nat) r.

(** [[a-zA-Z]] *)
Definition alpha (c : char) : bool := range "a" "z" c || range "A" "Z" c.
(** [[a-zA-Z0-9]] *)
Definition alnum (c : char) : bool := alpha c || range "0" "9" c.
(** [[a-zA-Z0-9-]] *)
Definition alnum_hyphen (c : char) : bool := alnum c || (c =? ord "-").
(** [[a-zA-Z0-9!#$%&'*+/=?^_`{|}~-]] *)
Definition atext (c : char) : bool := alnum c || one_of "!#$%&'*+/=?^_`{|}~-" c.
(** [.] without DOTALL *)
Definition dot (c : char) : bool := negb (c =? newline).

End Re.

(** ** dns_service.py *)

Module dns_service.
Import Py.

(** What a call does: it returns, or it raises an exception whose text
    [str(e)] is recorded. *)
Inductive outcome (A : Type) : Type :=
  | Returns (a : A)
  | Raises (text : string).
Arguments Returns {A} a.
Arguments Raises {A} text.

(** The abstract base class: a resolver is an object with some state [S]
    and the two lookups.  A call may change the state of the object.
    [DNSService], which asks the network, is one more instance of the
    class; what is proved for every instance holds for it. *)
Class DNSServiceBase (S : Type) : Type := {
  check_mx_record : S → str → outcome bool * S;
  get_mx_records : S → str → outcome (list (Z * str)) * S
}.

(** The stand-in resolver for tests.  Its table maps a domain to a
    boolean ([has_mx: bool]). *)
Record MockDNSService : Type := {
  responses : gmap str bool;
  call_history : list (string * str)
}.

Module MockDNSService.

(** [MockDNSService(responses)]: [responses or {}] and no history. *)
Definition __init__ (responses : option (gmap str bool)) : MockDNSService :=
  {| responses := default ∅ responses; call_history := [] |}.

Definition set_response (self : MockDNSService) (domain : str) (has_mx : bool)
  : MockDNSService :=
  {| responses := <[domain := has_mx]> (responses self);
     call_history := call_history self |}.

Definition check_mx_record (self : MockDNSService) (domain : str)
  : outcome bool * MockDNSService :=
  let self :=
    {| responses := responses self;
       call_history := call_history self ++ [("check_mx_record"%string, domain)] |} in
  (Returns (default false (responses self !! domain)), self).

Definition get_mx_records (self : MockDNSService) (domain : str)
  : outcome (list (Z * str)) * MockDNSService :=
  let self :=
    {| responses := responses self;
       call_history := call_history self ++ [("get_mx_records"%string, domain)] |} in
  if default false (responses self !! domain)
  then (Returns [(10%Z, lit "mail." ++ domain)], self)
  else (Returns [], self).

Definition reset_history (self : MockDNSService) : MockDNSService :=
  {| responses := responses self; call_history := [] |}.

End MockDNSService.

#[export] Instance MockDNSService_base : DNSServiceBase MockDNSService := {
  check_mx_record := MockDNSService.check_mx_record;
  get_mx_records := MockDNSService.get_mx_records
}.

End dns_service.

(** ** validator.py *)

Module validator.
Import Py Re dns_service.
Local Open Scope string_scope.
Local Open Scope list_scope.

Record ValidationResult : Type := {
  is_valid : bool;
  email : value;
  errors : list string;
  warnings : list string;
  mx_valid : option bool
}.

(** The state of an [EmailValidator]: the flag and the resolver it was
    built with ([None] when no resolver was given).  A resolver object is
    truthy, so [not self.dns_service] holds for [None] only. *)
Record EmailValidator (S : Type) : Type := {
  check_mx : bool;
  dns_service : option S
}.
Arguments check_mx {S} _.
Arguments dns_service {S} _.

Module EmailValidator.

(** [EmailValidator(check_mx, dns_service)] *)
Definition __init__ {S : Type} (check_mx : bool) (dns_service : option S)
  : EmailValidator S :=
  {| check_mx := check_mx; dns_service := dns_service |}.

(** [(?:[a-zA-Z0-9](?:[a-zA-Z0-9-]{0,61}[a-zA-Z0-9])?\.)] *)
Definition label_dot : regex :=
  Seq (Chr alnum)
    (Seq (opt (Seq (Rep 0 (Some 61%nat) (Chr alnum_hyphen)) (Chr alnum)))
       (chr ".")).

(** The quoted local part: a double quote, any run of (a character
    other than the double quote and the backslash | a backslash and one
    more character), a double quote. *)
Definition quoted : regex :=
  Seq (Chr (N.eqb dquote))
    (Seq (star (Alt (Chr (λ c, negb ((c =? dquote)%N || (c =? backslash)%N)))
                    (Seq (Chr (N.eqb backslash)) (Chr dot))))
       (Chr (N.eqb dquote))).

(** [atext+(?:\.atext+)*] *)
Definition unquoted : regex :=
  Seq (plus (Chr atext)) (star (Seq (chr ".") (plus (Chr atext)))).

Definition EMAIL_REGEX : regex :=
  Seq (Group "local" (Alt quoted unquoted))
    (Seq (chr "@")
       (Seq (Group "domain" (Seq (plus label_dot) (Rep 2 None (Chr alpha))))
          Dollar)).

(** [.+\.[a-zA-Z]{2,}$], the pattern of the diagnosis of the domain. *)
Definition TLD_REGEX : regex :=
  Seq (plus (Chr dot)) (Seq (chr ".") (Seq (Rep 2 None (Chr alpha)) Dollar)).

Definition MAX_EMAIL_LENGTH : nat := 254.
Definition MAX_LOCAL_LENGTH : nat := 64.
Definition MAX_DOMAIN_LENGTH : nat := 255.

(** [errors.append(msg)] when [c] holds.  The messages that the source
    formats from [MAX_EMAIL_LENGTH], [MAX_LOCAL_LENGTH] and
    [MAX_DOMAIN_LENGTH] are written out with the numbers in them. *)
Definition append_if (c : bool) (msg : string) (l : list string) : list string :=
  if c then l ++ [msg] else l.

(** The diagnosis of an address with exactly one ['@'] that the pattern
    rejects: at most one message for the local part, then at most one for
    the domain. *)
Definition diagnose (local domain : str) (errors : list string) : list string :=
  let errors :=
    if (length local =? 0)%nat then
      errors ++ ["Local part (before @) is empty"]
    else if (MAX_LOCAL_LENGTH <? length local)%nat then
      errors ++ ["Local part exceeds maximum length of 64 characters"]
    else if startswith local (lit ".") then
      errors ++ ["Local part starts with a dot"]
    else if endswith local (lit ".") then
      errors ++ ["Local part ends with a dot"]
    else errors in
  if (length domain =? 0)%nat then
    errors ++ ["Domain part (after @) is empty"]
  else if (MAX_DOMAIN_LENGTH <? length domain)%nat then
    errors ++ ["Domain exceeds maximum length of 255 characters"]
  else if negb (bool_decide (is_Some (re_match TLD_REGEX domain))) then
    if negb (contains (lit ".") domain) then
      errors ++ ["Domain is missing TLD (top-level domain)"]
    else
      errors ++ ["Domain has invalid format"]
  else errors.

Definition _validate_format (email : value) : bool * list string * list string :=
  let errors := [] in
  let warnings := [] in
  if negb (truthy email) then
    (false, errors ++ ["Email address is empty"], warnings)
  else
    match email with
    | VStr email =>
        let errors :=
          append_if (MAX_EMAIL_LENGTH <? length email)%nat
            "Email exceeds maximum length of 254 characters" errors in
        let stripped := strip email in
        let changed := bool_decide (stripped ≠ email) in
        let warnings :=
          append_if changed "Email contains leading or trailing whitespace" warnings in
        let email := if changed then stripped else email in
        let errors :=
          append_if (contains (lit "..") email) "Email contains consecutive dots" errors in
        let errors :=
          append_if (contains (lit " ") email) "Email contains spaces" errors in
        let errors :=
          append_if (1 <? count (ord "@") email)%nat
            "Email contains multiple '@' symbols" errors in
        let errors :=
          append_if (contains (lit "@.") email) "Domain cannot start with a dot" errors in
        match re_match EMAIL_REGEX email with
        | None =>
            let errors :=
              if negb (contains (lit "@") email) then
                errors ++ ["Email is missing '@' symbol"]
              else if (1 <? count (ord "@") email)%nat then
                errors
              else
                match rsplit1 (ord "@") email with
                | [local; domain] => diagnose local domain errors
                | _ => errors
                end in
            (false, errors, warnings)
        | Some m =>
            let local := group m "local" in
            let domain := group m "domain" in
            let errors :=
              append_if (MAX_LOCAL_LENGTH <? length local)%nat
                "Local part exceeds maximum length of 64 characters" errors in
            let warnings :=
              append_if (startswith local [dquote] && endswith local [dquote])
                "Quoted local part detected - may not be supported by all mail servers"
                warnings in
            let warnings :=
              append_if (contains (lit "+") local)
                "Plus addressing detected - ensure your system supports this"
                warnings in
            ((length errors =? 0)%nat, errors, warnings)
        end
    | _ =>
        (false, errors ++ ["Email must be a string, got " +:+ type_name email], warnings)
    end.

Section WithResolver.
Context {S : Type} `{!DNSServiceBase S}.

(** Returns [(mx_valid, errors)] and the resolver after the call.  The
    whole lookup, the extraction of the domain included, sits in the
    [try]: on a value without [rsplit] the [AttributeError] is caught
    like any failure of the lookup. *)
Definition _check_mx_record (self : EmailValidator S) (email : value)
  : option bool * list string * EmailValidator S :=
  let errors := [] in
  match dns_service self with
  | None =>
      (None, errors ++ ["DNS service not configured for MX record checking"], self)
  | Some svc =>
      match email with
      | VStr email =>
          let domain := default [] (last (rsplit1 (ord "@") email)) in
          match check_mx_record svc domain with
          | (Returns mx_valid, svc) =>
              (Some mx_valid, errors,
               {| check_mx := check_mx self; dns_service := Some svc |})
          | (Raises e, svc) =>
              (None, errors ++ ["DNS lookup failed: " +:+ e],
               {| check_mx := check_mx self; dns_service := Some svc |})
          end
      | _ =>
          (None,
           errors ++ ["DNS lookup failed: '" +:+ type_name email
                      +:+ "' object has no attribute 'rsplit'"],
           self)
      end
  end.

Definition validate (self : EmailValidator S) (email : value)
  : ValidationResult * EmailValidator S :=
  let '(format_valid, errors, warnings) := _validate_format email in
  let mx_valid := None in
  let '(mx_valid, errors, warnings, self) :=
    if format_valid && check_mx self then
      let '(mx_valid, mx_errors, self) := _check_mx_record self email in
      let errors := errors ++ mx_errors in
      let warnings :=
        append_if (bool_decide (mx_valid = Some false))
          "No MX record found for domain" warnings in
      (mx_valid, errors, warnings, self)
    else (mx_valid, errors, warnings, self) in
  let is_valid :=
    format_valid
    && (bool_decide (mx_valid = None) || bool_decide (mx_valid = Some true)) in
  ({| is_valid := is_valid;
      email := email;
      errors := errors;
      warnings := warnings;
      mx_valid := mx_valid |}, self).

(** [[self.validate(email) for email in emails]]: one call after the
    other on the same validator. *)
Fixpoint validate_batch (self : EmailValidator S) (emails : list value)
  : list ValidationResult * EmailValidator S :=
  match emails with
  | [] => ([], self)
  | email :: emails =>
      let '(r, self) := validate self email in
      let '(rs, self) := validate_batch self emails in
      (r :: rs, self)
  end.

Definition is_valid (self : EmailValidator S) (email : value)
  : bool * EmailValidator S :=
  let '(r, self) := validate self email in
  (validator.is_valid r, self).

End WithResolver.

End EmailValidator.

End validator.

(** ** validator.py: the result as a dictionary *)

Module ValidationResult.
Import Py validator.
Local Open Scope string_scope.

(** [mx_valid] as a Python value: [None], [True] or [False]. *)
Definition optional_bool (o : option bool) : value :=
  match o with
  | None => VNone
  | Some b => VBool b
  end.

(** [result.to_dict()].  The messages become Python strings. *)
Definition to_dict (self : ValidationResult) : gmap string value :=
  {[ "is_valid" := VBool (is_valid self);
     "email" := email self;
     "errors" := VList ((λ msg, VStr (lit msg)) <$> errors self);
     "warnings" := VList ((λ msg, VStr (lit msg)) <$> warnings self);
     "mx_valid" := optional_bool (mx_valid self) ]}.

End ValidationResult.

(** ** app.py *)

Module app.
Import Py dns_service validator.
Local Open Scope string_scope.
Local Open Scope list_scope.

(** What the handlers read of a request: whether its content type is
    JSON, the parsed body ([None] for the JSON [null], else the object as
    a dictionary), and the query parameters.  Bodies that are no objects
    are not modelled. *)
Record request : Type := {
  is_json : bool;
  get_json : option (gmap str value);
  args : gmap str str
}.

(** The dictionary that a handler hands to [jsonify], by its keys. *)
Inductive body : Type :=
  | ErrorBody (error : string)
  | HealthBody (status service : string) (check_mx : bool)
  | ResultBody (result : gmap string value)
  | BatchBody (results : list (gmap string value))
      (total valid_count invalid_count : Z)
  | QuickBody (email : str) (is_valid : bool).

Abbreviation response := (body * Z)%type.

Section Handlers.
Context {S : Type} `{!DNSServiceBase S}.

(** The handlers use the one validator of the module; here it is their
    argument, and they return it as the call leaves it. *)
Definition health_check (validator : EmailValidator S) : response :=
  (HealthBody "healthy" "email-validator" (check_mx validator), 200%Z).

Definition validate_email (validator : EmailValidator S) (request : request)
  : response * EmailValidator S :=
  if negb (is_json request) then
    ((ErrorBody "Content-Type must be application/json", 415%Z), validator)
  else
    match get_json request with
    | None => ((ErrorBody "Invalid JSON body", 400%Z), validator)
    | Some data =>
        match data !! lit "email" with
        | None | Some VNone =>
            ((ErrorBody "Missing required field: email", 400%Z), validator)
        | Some email =>
            let '(result, validator) := EmailValidator.validate validator email in
            ((ResultBody (ValidationResult.to_dict result), 200%Z), validator)
        end
    end.

Definition validate_batch (validator : EmailValidator S) (request : request)
  : response * EmailValidator S :=
  if negb (is_json request) then
    ((ErrorBody "Content-Type must be application/json", 415%Z), validator)
  else
    match get_json request with
    | None => ((ErrorBody "Invalid JSON body", 400%Z), validator)
    | Some data =>
        match data !! lit "emails" with
        | None | Some VNone =>
            ((ErrorBody "Missing required field: emails", 400%Z), validator)
        | Some (VList emails) =>
            if (length emails =? 0)%nat then
              ((ErrorBody "emails array cannot be empty", 400%Z), validator)
            else
              let '(results, validator) :=
                EmailValidator.validate_batch validator emails in
              let valid_count :=
                foldl Z.add 0%Z
                  ((λ _, 1%Z) <$> filter (λ r, is_valid r = true) results) in
              let invalid_count := (Z.of_nat (length results) - valid_count)%Z in
              ((BatchBody (ValidationResult.to_dict <$> results)
                  (Z.of_nat (length results)) valid_count invalid_count, 200%Z),
               validator)
        | Some _ => ((ErrorBody "emails must be an array", 400%Z), validator)
        end
    end.

Definition quick_check (validator : EmailValidator S) (request : request)
  : response * EmailValidator S :=
  match args request !! lit "email" with
  | None =>
      ((ErrorBody "Missing required query parameter: email", 400%Z), validator)
  | Some email =>
      let '(is_valid, validator) := EmailValidator.is_valid validator (VStr email) in
      ((QuickBody email is_valid, 200%Z), validator)
  end.

End Handlers.

End app.

(** ** Vocabulary of the properties *)

Import Py Re dns_service validator.
Local Open Scope string_scope.
Local Open Scope list_scope.

(** The three results of the format validator. *)
Definition format_valid (e : value) : bool := (EmailValidator._validate_format e).1.1.
Definition format_errors (e : value) : list string := (EmailValidator._validate_format e).1.2.
Definition format_warnings (e : value) : list string := (EmailValidator._validate_format e).2.

(** A resolver is deterministic when a lookup does not change what later
    lookups answer. *)
Definition deterministic (S : Type) `{!DNSServiceBase S} : Prop :=
  ∀ (svc : S) (d' d : str),
    (check_mx_record (check_mx_record svc d').2 d).1 = (check_mx_record svc d).1.

(** Two resolvers that answer every lookup alike. *)
Definition same_answers {S : Type} `{!DNSServiceBase S} (a b : option S) : Prop :=
  match a, b with
  | None, None => True
  | Some x, Some y => ∀ d, (check_mx_record x d).1 = (check_mx_record y d).1
  | _, _ => False
  end.

(** The validator used by the scenarios: MX checking on, stand-in resolver
    with the given table. *)
Definition with_mock (table : list (string * bool)) : EmailValidator MockDNSService :=
  EmailValidator.__init__ true
    (Some (MockDNSService.__init__
             (Some (list_to_map (map (λ kv, (lit kv.1, kv.2)) table))))).

(** [^[A-Za-z0-9]+@[A-Za-z]{2,63}\.[A-Za-z]{2,}$], the plain addresses. *)
Definition SIMPLE_REGEX : regex :=
  Seq (plus (Chr alnum))
    (Seq (chr "@")
       (Seq (Rep 2 (Some 63%nat) (Chr alpha))
          (Seq (chr ".") (Seq (Rep 2 None (Chr alpha)) Dollar)))).

(** Every character class of [r] accepts only characters in [P]. *)
Fixpoint chars_in (P : char → Prop) (r : regex) : Prop :=
  match r with
  | Chr p => ∀ c, p c = true → P c
  | Seq r1 r2 | Alt r1 r2 => chars_in P r1 ∧ chars_in P r2
  | Rep _ _ r1 | Group _ r1 => chars_in P r1
  | Dollar => True
  end.

(** The names of the groups of [r]. *)
Fixpoint group_names (r : regex) : list string :=
  match r with
  | Chr _ | Dollar => []
  | Seq r1 r2 | Alt r1 r2 => group_names r1 ++ group_names r2
  | Rep _ _ r1 => group_names r1
  | Group name r1 => name :: group_names r1
  end.

(** The errors of the checks that [_validate_format] makes on a string
    before it tries the pattern, in the order of the source: total length,
    consecutive dots, spaces, several ['@'], a dot right after ['@']. *)
Definition early_errors (s : str) : list string :=
  let t := strip s in
  EmailValidator.append_if (contains (lit "@.") t) "Domain cannot start with a dot"
    (EmailValidator.append_if (1 <? count (ord "@") t)%nat
       "Email contains multiple '@' symbols"
       (EmailValidator.append_if (contains (lit " ") t) "Email contains spaces"
          (EmailValidator.append_if (contains (lit "..") t)
             "Email contains consecutive dots"
             (EmailValidator.append_if
                (EmailValidator.MAX_EMAIL_LENGTH <? length s)%nat
                "Email exceeds maximum length of 254 characters" [])))).

(** The errors that [_validate_format] adds for a trimmed string [t] that
    the pattern rejects. *)
Definition diagnosis (t : str) : list string :=
  if negb (contains (lit "@") t) then ["Email is missing '@' symbol"]
  else if (1 <? count (ord "@") t)%nat then []
  else
    match rsplit1 (ord "@") t with
    | [local; domain] => EmailValidator.diagnose local domain []
    | _ => []
    end.

(** [email.rsplit('@', 1)[-1]], the domain that [_check_mx_record] hands
    to the resolver. *)
Definition lookup_domain (s : str) : str := default [] (last (rsplit1 (ord "@") s)).

(** The lookups that a batch asks of the resolver: one for each candidate
    that passes the format validator, in the order of the batch. *)
Definition lookups (emails : list value) : list (string * str) :=
  flat_map
    (λ e, match e with
          | VStr s => if format_valid e then [("check_mx_record", lookup_domain s)] else []
          | _ => []
          end)
    emails.

(** An atom of an unquoted local part: one or more characters of
    [[a-zA-Z0-9!#$%&'*+/=?^_`{|}~-]]. *)
Definition atom (a : str) : Prop := a ≠ [] ∧ Forall (λ c, atext c = true) a.

(** A label of a domain name: one letter or digit, or up to 63 letters,
    digits and hyphens of which the first and the last are no hyphen. *)
Definition label (b : str) : Prop :=
  (∃ c, b = [c] ∧ alnum c = true)
  ∨ (∃ c0 mid c1,
       b = c0 :: mid ++ [c1] ∧ alnum c0 = true
       ∧ Forall (λ c, alnum_hyphen c = true) mid ∧ (length mid ≤ 61)%nat
       ∧ alnum c1 = true).

(** Atoms joined by dots, and labels each followed by a dot before the
    top-level domain. *)
Definition dotted (a0 : str) (atoms : list str) : str :=
  a0 ++ concat (map (cons (ord ".")) atoms).
Definition labelled (labels : list str) (tld : str) : str :=
  concat (map (λ b, b ++ [ord "."]) labels) ++ tld.

(** The characters of atoms, labels and top-level domains: printable,
    and none of the double quote, the dot and ['@']. *)
Definition ordinary (c : char) : Prop := (33 ≤ c ≤ 126 ∧ c ≠ 34 ∧ c ≠ 46 ∧ c ≠ 64)%N.

(** [r] matches the word [w] whatever follows it, and sets no group. *)
Definition accepts (r : regex) (w : str) : Prop :=
  ∀ rest (g : groups), In (rest, g) (run r (w ++ rest) g).

(** A validator that checks the format only. *)
Definition offline : EmailValidator MockDNSService := EmailValidator.__init__ false None.

(** * Properties *)

(** ** The matcher *)

Section Matcher.
Implicit Types (r : regex) (s w : str) (g : groups) (x : state).

Lemma consumed_app w s : consumed (w ++ s) s = w.
Proof.
  unfold consumed. rewrite length_app.
  replace (length w + length s - length s)%nat with (length w) by lia.
  by rewrite take_app_length.
Qed.

Lemma flat_map_nil {A B : Type} (f : A → list B) (l : list A) :
  (∀ a, In a l → f a = []) → flat_map f l = [].
Proof.
  induction l as [|a l IH]; intros Hf; [done|]. simpl.
  rewrite (Hf a) by (by left). apply IH. intros b Hb. apply Hf. by right.
Qed.

(** The fuel of the greedy loop is no restriction: any amount that covers
    the input gives the same list. *)
Lemma rounds_fuel body lo hi fuel1 fuel2 n s g :
  (length s ≤ fuel1)%nat → (length s ≤ fuel2)%nat →
  rounds body lo hi fuel1 n s g = rounds body lo hi fuel2 n s g.
Proof.
  revert fuel2 n s g.
  assert (Hnone : ∀ fuel n s g, length s = 0%nat →
            flat_map (λ x : state, if (length x.1 <? length s)%nat
                                    then rounds body lo hi fuel (S n) x.1 x.2
                                    else []) (body s g) = []).
  { intros fuel n s g Hs. apply flat_map_nil. intros a _.
    destruct (length a.1 <? length s)%nat eqn:Hlt; [|done].
    apply Nat.ltb_lt in Hlt. lia. }
  induction fuel1 as [|fuel1 IH]; intros [|fuel2] n s g H1 H2; simpl; try done.
  - destruct (below hi n); [|done]. rewrite Hnone by lia. done.
  - destruct (below hi n); [|done]. rewrite Hnone by lia. done.
  - f_equal. destruct (below hi n); [|done]. apply flat_map_ext.
    intros a. destruct (length a.1 <? length s)%nat eqn:Hlt; [|done].
    apply Nat.ltb_lt in Hlt. apply IH; lia.
Qed.

Lemma rounds_stop body lo hi fuel n s g :
  (lo ≤ n)%nat → In (s, g) (rounds body lo hi fuel n s g).
Proof.
  intros Hlo. destruct fuel; cbn [rounds]; apply in_or_app; right;
    (apply Nat.leb_le in Hlo; rewrite Hlo; by left).
Qed.

Lemma rounds_more body lo hi fuel n s g s1 g1 x :
  below hi n = true →
  In (s1, g1) (body s g) →
  (length s1 < length s)%nat →
  (length s ≤ fuel)%nat →
  In x (rounds body lo hi (length s1) (S n) s1 g1) →
  In x (rounds body lo hi fuel n s g).
Proof.
  intros Hhi Hbody Hlt Hfuel Hx.
  destruct fuel as [|fuel]; [lia|]. cbn [rounds]. rewrite Hhi.
  apply in_or_app. left. apply in_flat_map. exists (s1, g1). split; [done|].
  simpl. apply Nat.ltb_lt in Hlt as Hlt'. rewrite Hlt'.
  by rewrite (rounds_fuel body lo hi fuel (length s1)) by lia.
Qed.

Lemma rounds_inv body lo hi fuel n s g x :
  In x (rounds body lo hi fuel n s g) →
  (x = (s, g) ∧ (lo ≤ n)%nat)
  ∨ (below hi n = true
     ∧ ∃ fuel' s1 g1,
         fuel = S fuel' ∧ In (s1, g1) (body s g) ∧ (length s1 < length s)%nat
         ∧ In x (rounds body lo hi fuel' (S n) s1 g1)).
Proof.
  intros Hx.
  assert (Hstop : In x (if (lo <=? n)%nat then [(s, g)] else []) →
                  x = (s, g) ∧ (lo ≤ n)%nat).
  { destruct (lo <=? n)%nat eqn:Hlo; [|done].
    intros [<-|[]]. split; [done|]. by apply Nat.leb_le. }
  destruct fuel as [|fuel]; cbn [rounds] in Hx.
  - left. by apply Hstop.
  - apply in_app_or in Hx as [Hx|Hx]; [|left; by apply Hstop].
    right. destruct (below hi n); [|done]. split; [done|].
    apply in_flat_map in Hx as ([s1 g1] & Hbody & Hx). simpl in Hx.
    destruct (length s1 <? length s)%nat eqn:Hlt; [|done].
    apply Nat.ltb_lt in Hlt. by exists fuel, s1, g1.
Qed.

(** Whatever [r] matches is a prefix of the input, made of characters its
    classes accept. *)
Lemma run_word (P : char → Prop) r s g x :
  chars_in P r → In x (run r s g) → ∃ w, s = w ++ x.1 ∧ Forall P w.
Proof.
  revert s g x.
  induction r as [p|r1 IH1 r2 IH2|r1 IH1 r2 IH2|lo hi r1 IH1|name r1 IH1|];
    intros s g x Hchars Hx; simpl in *.
  - destruct s as [|c s]; [done|]. destruct (p c) eqn:Hp; [|done].
    destruct Hx as [<-|[]]. exists [c]. split; [done|]. by repeat constructor; auto.
  - destruct Hchars as [Hc1 Hc2]. apply in_flat_map in Hx as (y & Hy & Hx).
    destruct (IH1 _ _ _ Hc1 Hy) as (w1 & -> & Hw1).
    destruct (IH2 _ _ _ Hc2 Hx) as (w2 & Hy2 & Hw2).
    exists (w1 ++ w2). split; [by rewrite Hy2, app_assoc|by apply Forall_app].
  - destruct Hchars as [Hc1 Hc2]. apply in_app_or in Hx as [Hx|Hx]; eauto.
  - generalize dependent (length s). intros fuel. generalize 0%nat as n.
    revert s g. induction fuel as [|fuel IHf]; intros s g n Hx;
      apply rounds_inv in Hx as [[-> _]|(_ & fuel' & s1 & g1 & Hf & Hbody & _ & Hx)];
      try (by exists []); try done.
    injection Hf as <-.
    destruct (IH1 _ _ _ Hchars Hbody) as (w1 & -> & Hw1). simpl in *.
    destruct (IHf _ _ _ Hx) as (w2 & Hy2 & Hw2).
    exists (w1 ++ w2). split; [by rewrite Hy2, app_assoc|by apply Forall_app].
  - apply in_map_iff in Hx as (y & <- & Hy). simpl. eauto.
  - destruct s as [|c [|c' s]]; try done.
    + destruct Hx as [<-|[]]. by exists [].
    + destruct (c =? 10)%N; [|done]. destruct Hx as [<-|[]]. by exists [].
Qed.

Lemma run_suffix r s g x : In x (run r s g) → ∃ w, s = w ++ x.1.
Proof.
  intros Hx. destruct (run_word (λ _, True) r s g x) as (w & Hw & _); eauto.
  clear. induction r; simpl; auto.
Qed.

(** Matching [r] leaves the groups it does not name as they were. *)
Lemma run_groups r s g x name :
  name ∉ group_names r → In x (run r s g) → x.2 !! name = g !! name.
Proof.
  revert s g x.
  induction r as [p|r1 IH1 r2 IH2|r1 IH1 r2 IH2|lo hi r1 IH1|name' r1 IH1|];
    intros s g x Hname Hx; simpl in *.
  - destruct s as [|c s]; [done|]. destruct (p c); [|done]. by destruct Hx as [<-|[]].
  - apply not_elem_of_app in Hname as [Hn1 Hn2].
    apply in_flat_map in Hx as (y & Hy & Hx).
    etrans; [apply (IH2 _ _ _ Hn2 Hx)|apply (IH1 _ _ _ Hn1 Hy)].
  - apply not_elem_of_app in Hname as [Hn1 Hn2].
    apply in_app_or in Hx as [Hx|Hx]; eauto.
  - generalize dependent (length s). intros fuel. generalize 0%nat as n.
    revert s g. induction fuel as [|fuel IHf]; intros s g n Hx;
      apply rounds_inv in Hx as [[-> _]|(_ & fuel' & s1 & g1 & Hf & Hbody & _ & Hx)];
      try done.
    injection Hf as <-.
    etrans; [apply (IHf _ _ _ Hx)|apply (IH1 _ _ _ Hname Hbody)].
  - apply not_elem_of_cons in Hname as [Hne Hname].
    apply in_map_iff in Hx as (y & <- & Hy). simpl.
    rewrite lookup_insert_ne by done. eauto.
  - destruct s as [|c [|c' s]]; try done.
    + by destruct Hx as [<-|[]].
    + destruct (c =? 10)%N; [|done]. by destruct Hx as [<-|[]].
Qed.

Lemma chr_inv p s g x :
  In x (run (Chr p) s g) → ∃ c, s = c :: x.1 ∧ p c = true ∧ x.2 = g.
Proof.
  simpl. destruct s as [|c s]; [done|]. destruct (p c) eqn:Hp; [|done].
  intros [<-|[]]. by exists c.
Qed.

Lemma chr_intro p c s g : p c = true → In (s, g) (run (Chr p) (c :: s) g).
Proof. simpl. intros ->. by left. Qed.

Lemma seq_intro r1 r2 s g y x :
  In y (run r1 s g) → In x (run r2 y.1 y.2) → In x (run (Seq r1 r2) s g).
Proof. intros Hy Hx. simpl. apply in_flat_map. eauto. Qed.

Lemma seq_inv r1 r2 s g x :
  In x (run (Seq r1 r2) s g) → ∃ y, In y (run r1 s g) ∧ In x (run r2 y.1 y.2).
Proof. simpl. intros Hx. by apply in_flat_map in Hx. Qed.

(** A greedy repetition of one character class takes between [lo] and
    [hi] characters of the class off the front, and can take any such
    number of them. *)
Lemma rep_chr_inv lo hi p s g x :
  In x (run (Rep lo hi (Chr p)) s g) →
  ∃ w, s = w ++ x.1 ∧ x.2 = g ∧ Forall (λ c, p c = true) w
       ∧ (lo ≤ length w)%nat ∧ ∀ h, hi = Some h → (length w ≤ h)%nat.
Proof.
  cbn [run]. generalize (length s) as fuel.
  assert (Hn : ∀ h, hi = Some h → (0 ≤ h)%nat) by (intros; lia).
  change (lo ≤ length ?w)%nat with (lo ≤ 0 + length w)%nat.
  intros fuel Hx.
  cut (∃ w, s = w ++ x.1 ∧ x.2 = g ∧ Forall (λ c, p c = true) w
            ∧ (lo ≤ 0 + length w)%nat ∧ ∀ h, hi = Some h → (0 + length w ≤ h)%nat).
  { done. }
  revert Hn Hx. generalize 0%nat as n. revert s.
  induction fuel as [|fuel IH]; intros s n Hn Hx;
    apply rounds_inv in Hx as [[-> Hlo]|(Hhi & fuel' & s1 & g1 & Hf & Hbody & _ & Hx)];
    try (exists []; simpl; repeat split; auto; try lia;
         intros h Hh; specialize (Hn h Hh); lia);
    try done.
  injection Hf as <-.
  apply chr_inv in Hbody as (c & -> & Hp & Hg). simpl in Hg. subst g1.
  destruct (IH s1 (S n)) as (w & Hs1 & Hxg & Hw & Hlo & Hbound); [|done|].
  { intros h ->. simpl in Hhi. apply Nat.ltb_lt in Hhi. lia. }
  exists (c :: w). simpl. repeat split; auto.
  - by rewrite Hs1 at 1.
  - lia.
  - intros h Hh. specialize (Hbound h Hh). lia.
Qed.

Lemma rep_chr_intro lo hi p w s g :
  Forall (λ c, p c = true) w →
  (lo ≤ length w)%nat →
  (∀ h, hi = Some h → (length w ≤ h)%nat) →
  In (s, g) (run (Rep lo hi (Chr p)) (w ++ s) g).
Proof.
  cbn [run]. intros Hw.
  change (lo ≤ length w)%nat with (lo ≤ 0 + length w)%nat.
  change (∀ h, hi = Some h → (length w ≤ h)%nat)
    with (∀ h, hi = Some h → (0 + length w ≤ h)%nat).
  generalize 0%nat as n.
  induction Hw as [|c w Hc Hw IH]; intros n Hlo Hhi.
  - apply rounds_stop. simpl in Hlo. lia.
  - apply (rounds_more _ _ _ _ _ _ _ (w ++ s) g).
    + destruct hi as [h|]; [|done]. simpl. apply Nat.ltb_lt.
      specialize (Hhi h eq_refl). simpl in Hhi. lia.
    + by apply chr_intro.
    + simpl. lia.
    + done.
    + apply IH; simpl in *; [lia|]. intros h Hh. specialize (Hhi h Hh). lia.
Qed.

Lemma dollar_inv s g x :
  In x (run Dollar s g) → x = (s, g) ∧ (s = [] ∨ s = [newline]).
Proof.
  simpl. destruct s as [|c [|c' s]]; try done.
  - intros [<-|[]]. auto.
  - destruct (c =? 10)%N eqn:Hc; [|done]. apply N.eqb_eq in Hc as ->.
    intros [<-|[]]. auto.
Qed.

Lemma group_intro name r s g y :
  In y (run r s g) →
  In (y.1, <[name := consumed s y.1]> y.2) (run (Group name r) s g).
Proof. intros Hy. simpl. apply in_map_iff. eauto. Qed.

Lemma group_inv name r s g x :
  In x (run (Group name r) s g) →
  ∃ w g', s = w ++ x.1 ∧ In (x.1, g') (run r s g) ∧ x.2 = <[name := w]> g'.
Proof.
  simpl. intros ([s' g'] & <- & Hy)%in_map_iff. simpl.
  destruct (run_suffix _ _ _ _ Hy) as [w Hw]. simpl in Hw.
  exists w, g'. by rewrite Hw at 3; rewrite consumed_app.
Qed.

(** A greedy repetition may stop at once, or after one round. *)
Lemma rep_intro_none hi r s g : In (s, g) (run (Rep 0 hi r) s g).
Proof.
  change (run (Rep 0 hi r) s g) with (rounds (run r) 0 hi (length s) 0 s g).
  apply rounds_stop. lia.
Qed.

Lemma rep_intro_once lo hi r s g s1 g1 :
  (lo ≤ 1)%nat → below hi 0 = true →
  In (s1, g1) (run r s g) → (length s1 < length s)%nat →
  In (s1, g1) (run (Rep lo hi r) s g).
Proof.
  intros Hlo Hhi Hbody Hlt.
  change (run (Rep lo hi r) s g) with (rounds (run r) lo hi (length s) 0 s g).
  eapply rounds_more; eauto. by apply rounds_stop.
Qed.

Lemma re_match_inv r s m : re_match r s = Some m → ∃ rest, In (rest, m) (run r s ∅).
Proof.
  unfold re_match. destruct (run r s ∅) as [|[rest m'] l]; [done|].
  simpl. intros [= <-]. exists rest. by left.
Qed.

Lemma re_match_intro r s x : In x (run r s ∅) → ∃ m, re_match r s = Some m.
Proof. unfold re_match. destruct (run r s ∅) as [|y l]; [done|]. simpl. eauto. Qed.

End Matcher.


(** ** The orchestrator *)

Section Orchestrator.
Context {S : Type} `{!DNSServiceBase S}.
Implicit Types (self : EmailValidator S) (e : value).

Lemma validate_skips_mx self e :
  format_valid e && check_mx self = false →
  EmailValidator.validate self e =
    ({| is_valid := format_valid e; email := e; errors := format_errors e;
        warnings := format_warnings e; mx_valid := None |}, self).
Proof.
  unfold EmailValidator.validate, format_valid, format_errors, format_warnings.
  destruct (EmailValidator._validate_format e) as [[fv errs] warns]; simpl.
  intros ->. simpl. by rewrite andb_true_r.
Qed.

Lemma validate_runs_mx self e :
  format_valid e && check_mx self = true →
  EmailValidator.validate self e =
    let '(mx, mx_errors, self') := EmailValidator._check_mx_record self e in
    ({| is_valid := bool_decide (mx = None) || bool_decide (mx = Some true);
        email := e;
        errors := format_errors e ++ mx_errors;
        warnings :=
          EmailValidator.append_if (bool_decide (mx = Some false))
            "No MX record found for domain" (format_warnings e);
        mx_valid := mx |}, self').
Proof.
  unfold EmailValidator.validate, format_valid, format_errors, format_warnings.
  destruct (EmailValidator._validate_format e) as [[fv errs] warns]; simpl.
  intros Hrun. rewrite Hrun.
  destruct (EmailValidator._check_mx_record self e) as [[mx mx_errors] self'].
  apply andb_true_iff in Hrun as [-> _]. done.
Qed.

(** A format-valid result carries no error: the flag is
    [len(errors) == 0]. *)
Lemma format_valid_no_errors e : format_valid e = true → format_errors e = [].
Proof.
  unfold format_valid, format_errors, EmailValidator._validate_format.
  destruct (negb (truthy e)); [done|].
  destruct e; try done.
  match goal with |- context [re_match ?r ?x] => destruct (re_match r x) end;
    [|done].
  cbn [fst snd].
  match goal with |- context [(length ?l =? 0)%nat] => by destruct l end.
Qed.


Lemma validate_email self e : email (EmailValidator.validate self e).1 = e.
Proof.
  destruct (format_valid e && check_mx self) eqn:Hrun.
  - rewrite validate_runs_mx by done.
    by destruct (EmailValidator._check_mx_record self e) as [[mx mx_errors] self'].
  - by rewrite validate_skips_mx.
Qed.

Lemma check_mx_record_keeps_flag self e :
  check_mx (EmailValidator._check_mx_record self e).2 = check_mx self.
Proof.
  unfold EmailValidator._check_mx_record.
  destruct (dns_service self) as [svc|]; [|done].
  destruct e; try done; by destruct (check_mx_record svc _) as [[b|msg] svc'].
Qed.

Lemma validate_keeps_flag self e :
  check_mx (EmailValidator.validate self e).2 = check_mx self.
Proof.
  destruct (format_valid e && check_mx self) eqn:Hrun.
  - rewrite validate_runs_mx by done.
    pose proof (check_mx_record_keeps_flag self e) as Hflag.
    by destruct (EmailValidator._check_mx_record self e) as [[mx mx_errors] self'].
  - by rewrite validate_skips_mx.
Qed.

(** What [validate] returns depends on the resolver only through its
    answers. *)
Lemma validate_same_answers self self' e :
  check_mx self = check_mx self' →
  same_answers (dns_service self) (dns_service self') →
  (EmailValidator.validate self e).1 = (EmailValidator.validate self' e).1.
Proof.
  intros Hflag Hsame.
  destruct (format_valid e && check_mx self) eqn:Hrun.
  - rewrite !validate_runs_mx by (by rewrite <-?Hflag).
    unfold EmailValidator._check_mx_record.
    destruct (dns_service self) as [x|], (dns_service self') as [y|];
      try done.
    destruct e; try done. simpl in Hsame.
    match goal with |- context [check_mx_record x ?d] => specialize (Hsame d) end.
    destruct (check_mx_record x _) as [ox x'], (check_mx_record y _) as [oy y'].
    simpl in Hsame. subst oy. by destruct ox.
  - rewrite !validate_skips_mx by (by rewrite <-?Hflag). done.
Qed.

Lemma validate_keeps_answers self e :
  deterministic S →
  same_answers (dns_service (EmailValidator.validate self e).2) (dns_service self).
Proof.
  intros Hdet.
  assert (Hrefl : same_answers (dns_service self) (dns_service self)).
  { by destruct (dns_service self). }
  destruct (format_valid e && check_mx self) eqn:Hrun.
  - rewrite validate_runs_mx by done.
    unfold EmailValidator._check_mx_record.
    destruct (dns_service self) as [x|] eqn:Hsvc; [|by simpl; rewrite Hsvc].
    destruct e; try (by simpl; rewrite Hsvc).
    match goal with |- context [check_mx_record x ?d] =>
      pose proof (Hdet x d) as Hd end.
    destruct (check_mx_record x _) as [[b|msg] x']; simpl in *; done.
  - by rewrite validate_skips_mx.
Qed.

Lemma validate_batch_spec self0 self (L : list value) :
  deterministic S →
  check_mx self = check_mx self0 →
  same_answers (dns_service self) (dns_service self0) →
  (EmailValidator.validate_batch self L).1
  = map (λ e, (EmailValidator.validate self0 e).1) L.
Proof.
  intros Hdet. revert self. induction L as [|e L IH]; intros self Hflag Hsame; [done|].
  simpl.
  pose proof (validate_keeps_flag self e) as Hflag'.
  pose proof (validate_keeps_answers self e Hdet) as Hsame'.
  pose proof (validate_same_answers self self0 e Hflag Hsame) as Hres.
  destruct (EmailValidator.validate self e) as [r self1]. simpl in *.
  specialize (IH self1).
  destruct (EmailValidator.validate_batch self1 L) as [rs self2]. simpl in *.
  rewrite Hres, IH; [done|congruence|].
  destruct (dns_service self1), (dns_service self), (dns_service self0);
    simpl in *; try done.
  intros d. by rewrite Hsame', Hsame.
Qed.

(** C1. The result's [mx_valid] is not unknown only if format validation
    succeeded and MX checking was enabled; in particular a format-invalid
    candidate always has [mx_valid] unknown, whatever the resolver. *)
Theorem mx_valid_gated self e :
  (mx_valid (EmailValidator.validate self e).1 ≠ None →
     format_valid e = true ∧ check_mx self = true)
  ∧ (format_valid e = false →
     mx_valid (EmailValidator.validate self e).1 = None).
Proof.
  split.
  - intros Hmx. apply andb_true_iff.
    destruct (format_valid e && check_mx self) eqn:Hrun; [done|].
    by rewrite validate_skips_mx in Hmx.
  - intros Hfv. rewrite validate_skips_mx; [done|]. by rewrite Hfv.
Qed.

(** C4. MX checking enabled, format valid, no resolver configured: the
    error "DNS service not configured for MX record checking" is appended
    (to a list that held no error), [mx_valid] is unknown and the result
    is still valid. *)
Theorem mx_without_resolver self e :
  check_mx self = true →
  dns_service self = None →
  format_valid e = true →
  let r := (EmailValidator.validate self e).1 in
  errors r = format_errors e ++ ["DNS service not configured for MX record checking"]
  ∧ errors r = ["DNS service not configured for MX record checking"]
  ∧ mx_valid r = None
  ∧ is_valid r = true.
Proof.
  intros Hflag Hnone Hfv. cbn zeta.
  rewrite validate_runs_mx by (by rewrite Hfv, Hflag).
  unfold EmailValidator._check_mx_record. rewrite Hnone.
  rewrite (format_valid_no_errors e Hfv). done.
Qed.

(** C7. With a deterministic resolver, [validate_batch] returns as many
    results as there are candidates, and the i-th is the result of
    [validate] on the i-th candidate. *)
Theorem validate_batch_pointwise self (L : list value) :
  deterministic S →
  let out := (EmailValidator.validate_batch self L).1 in
  length out = length L
  ∧ ∀ (i : nat) e, L !! i = Some e →
      out !! i = Some (EmailValidator.validate self e).1.
Proof.
  intros Hdet. cbn zeta.
  rewrite (validate_batch_spec self self L Hdet eq_refl)
    by (by destruct (dns_service self)).
  split; [by rewrite length_map|].
  intros i e Hi. by rewrite list_lookup_fmap, Hi.
Qed.

(** C8. The [email] field of the result is the input as received. *)
Theorem validate_stores_input self e :
  email (EmailValidator.validate self e).1 = e.
Proof. apply validate_email. Qed.

(** C9. A falsy input is reported as empty, and only as empty: the result
    is invalid, the errors are exactly ["Email address is empty"] and
    [mx_valid] is unknown, also when the value is not a string. *)
Theorem falsy_is_empty self e :
  truthy e = false →
  let r := (EmailValidator.validate self e).1 in
  is_valid r = false
  ∧ errors r = ["Email address is empty"]
  ∧ mx_valid r = None.
Proof.
  intros Hfalsy. cbn zeta.
  assert (Hfmt : EmailValidator._validate_format e
                 = (false, ["Email address is empty"], [])).
  { unfold EmailValidator._validate_format. by rewrite Hfalsy. }
  rewrite validate_skips_mx; unfold format_valid, format_errors; by rewrite Hfmt.
Qed.

End Orchestrator.

(** ** Strings *)

Section Strings.
Implicit Types (s w sub : str) (c x : char).

Lemma alnum_codes c :
  alnum c = true → (48 ≤ c ≤ 57 ∨ 65 ≤ c ≤ 90 ∨ 97 ≤ c ≤ 122)%N.
Proof.
  unfold alnum, alpha, range.
  change (ord "a") with 97%N. change (ord "z") with 122%N.
  change (ord "A") with 65%N. change (ord "Z") with 90%N.
  change (ord "0") with 48%N. change (ord "9") with 57%N.
  rewrite !orb_true_iff, !andb_true_iff, !N.leb_le. lia.
Qed.

Lemma alpha_alnum c : alpha c = true → alnum c = true.
Proof. unfold alnum. by intros ->. Qed.

Lemma alnum_atext c : alnum c = true → atext c = true.
Proof. unfold atext. by intros ->. Qed.

Lemma alnum_alnum_hyphen c : alnum c = true → alnum_hyphen c = true.
Proof. unfold alnum_hyphen. by intros ->. Qed.

Lemma alnum_not_space c : alnum c = true → isspace c = false.
Proof.
  intros Hc%alnum_codes. unfold isspace.
  repeat (apply orb_false_iff; split);
    rewrite ?andb_false_iff, ?N.leb_gt, ?N.eqb_neq; lia.
Qed.

(** A character of [[a-zA-Z0-9-.]] is not ['@']. *)
Lemma domain_char_not_at c :
  alnum c = true ∨ alnum_hyphen c = true ∨ c = ord "." → c ≠ ord "@".
Proof.
  unfold alnum_hyphen. rewrite orb_true_iff, N.eqb_eq.
  change (ord "-") with 45%N. change (ord ".") with 46%N. change (ord "@") with 64%N.
  intros [H|[[H|H]|H]]; try apply alnum_codes in H; lia.
Qed.

Lemma startswith_cons_ne c x s sub : c ≠ x → startswith (c :: s) (x :: sub) = false.
Proof. intros Hne. simpl. by apply N.eqb_neq in Hne as ->. Qed.

Lemma contains_cons_ne c x s sub :
  c ≠ x → contains (x :: sub) (c :: s) = contains (x :: sub) s.
Proof. intros Hne. cbn [contains]. by rewrite startswith_cons_ne. Qed.

Lemma contains_cons_eq x s sub :
  contains (x :: sub) (x :: s) = startswith s sub || contains (x :: sub) s.
Proof. cbn [contains startswith]. by rewrite N.eqb_refl. Qed.

(** The characters before the first occurrence of [x] play no part in a
    search for a string that starts with [x]. *)
Lemma contains_skip x sub w s :
  Forall (λ c, c ≠ x) w → contains (x :: sub) (w ++ s) = contains (x :: sub) s.
Proof.
  induction 1 as [|c w Hc Hw IH]; [done|].
  rewrite <-app_comm_cons, contains_cons_ne; done.
Qed.

Lemma contains_absent x sub s :
  Forall (λ c, c ≠ x) s → contains (x :: sub) s = false.
Proof.
  intros Hs. rewrite <-(app_nil_r s), contains_skip by done. done.
Qed.

Lemma count_app x s1 s2 : count x (s1 ++ s2) = (count x s1 + count x s2)%nat.
Proof. unfold count. by rewrite filter_app, length_app. Qed.

Lemma count_absent x s : Forall (λ c, c ≠ x) s → count x s = 0%nat.
Proof.
  unfold count. induction 1 as [|c s Hc Hs IH]; [done|].
  by rewrite filter_cons_False.
Qed.

Lemma count_cons_eq x s : count x (x :: s) = S (count x s).
Proof. unfold count. by rewrite filter_cons_True. Qed.

Lemma lstrip_cons c s : isspace c = false → lstrip (c :: s) = c :: s.
Proof. simpl. by intros ->. Qed.

Lemma rstrip_snoc s c : isspace c = false → rstrip (s ++ [c]) = s ++ [c].
Proof.
  intros Hc. unfold rstrip. rewrite rev_app_distr. cbn [rev app].
  rewrite lstrip_cons by done. cbn [rev]. by rewrite rev_involutive.
Qed.

Lemma rstrip_snoc_space s c : isspace c = true → rstrip (s ++ [c]) = rstrip s.
Proof.
  intros Hc. unfold rstrip. rewrite rev_app_distr. cbn [rev app lstrip].
  by rewrite Hc.
Qed.

Lemma lstrip_suffix s : ∃ w, s = w ++ lstrip s.
Proof.
  induction s as [|c s [w IH]]; [by exists []|]. simpl.
  destruct (isspace c); [|by exists []]. exists (c :: w). by rewrite IH at 1.
Qed.

Lemma strip_In c s : In c (strip s) → In c s.
Proof.
  unfold strip, rstrip. intros Hc%in_rev.
  destruct (lstrip_suffix (rev (lstrip s))) as [w Hw].
  destruct (lstrip_suffix s) as [w' Hw'].
  rewrite Hw'. apply in_or_app. right. apply in_rev. rewrite Hw.
  apply in_or_app. by right.
Qed.

(** [rpartition] cuts at the last occurrence of the separator. *)
Lemma rpartition_spec x s :
  match rpartition x s with
  | Some (a, b) => s = a ++ x :: b ∧ ¬ In x b
  | None => ¬ In x s
  end.
Proof.
  induction s as [|c s IH]; simpl; [auto|].
  destruct (rpartition x s) as [[a b]|].
  - destruct IH as [-> Hb]. done.
  - destruct (c =? x)%N eqn:Hc.
    + apply N.eqb_eq in Hc as ->. done.
    + apply N.eqb_neq in Hc. intros [?|?]; done.
Qed.

Lemma last_split_unique x (a a' b b' : str) :
  a ++ x :: b = a' ++ x :: b' → ¬ In x b → ¬ In x b' → a = a' ∧ b = b'.
Proof.
  revert a'. induction a as [|c a IH]; intros [|c' a'] Heq Hb Hb'; simpl in Heq.
  - by injection Heq as ->.
  - injection Heq as <- ->. destruct Hb. apply in_or_app. right. by left.
  - injection Heq as -> <-. destruct Hb'. apply in_or_app. right. by left.
  - injection Heq as -> Heq. destruct (IH a' Heq Hb Hb') as [-> ->]. done.
Qed.

End Strings.

(** ** The two patterns *)

Section Patterns.
Implicit Types (s l d t w : str) (c : char).

(** What the plain pattern accepts: alphanumerics, ['@'], 2 to 63 letters,
    a dot, 2 or more letters, and possibly the newline that [$] lets
    through at the very end. *)
Lemma simple_regex_inv s :
  is_Some (re_match SIMPLE_REGEX s) →
  ∃ l d t tail,
    s = (l ++ ord "@" :: d ++ ord "." :: t) ++ tail
    ∧ l ≠ [] ∧ Forall (λ c, alnum c = true) l
    ∧ Forall (λ c, alpha c = true) d ∧ (2 ≤ length d ≤ 63)%nat
    ∧ Forall (λ c, alpha c = true) t ∧ (2 ≤ length t)%nat
    ∧ (tail = [] ∨ tail = [newline]).
Proof.
  intros [m Hm]. apply re_match_inv in Hm as [rest Hm]. unfold SIMPLE_REGEX in Hm.
  apply seq_inv in Hm as ([s1 g1] & H1 & Hm).
  apply rep_chr_inv in H1 as (l & -> & _ & Hl & Hl1 & _).
  apply seq_inv in Hm as ([s2 g2] & H2 & Hm).
  apply chr_inv in H2 as (c & Hs1 & Hc%N.eqb_eq & _).
  apply seq_inv in Hm as ([s3 g3] & H3 & Hm).
  apply rep_chr_inv in H3 as (d & Hs2 & _ & Hd & Hd1 & Hd2).
  apply seq_inv in Hm as ([s4 g4] & H4 & Hm).
  apply chr_inv in H4 as (c' & Hs3 & Hc'%N.eqb_eq & _).
  apply seq_inv in Hm as ([s5 g5] & H5 & Hm).
  apply rep_chr_inv in H5 as (t & Hs4 & _ & Ht & Ht1 & _).
  apply dollar_inv in Hm as [_ Htail].
  cbn [fst snd] in *. subst s1 s2 s3 s4 c c'.
  specialize (Hd2 63%nat eq_refl).
  exists l, d, t, s5. repeat split; auto.
  - by rewrite <-!app_assoc, <-!app_comm_cons, <-!app_assoc.
  - intros ->. simpl in Hl1. lia.
Qed.

Lemma domain_pattern_chars :
  chars_in (λ c, c ≠ ord "@")
    (Seq (plus EmailValidator.label_dot) (Rep 2 None (Chr alpha))).
Proof.
  unfold plus, EmailValidator.label_dot, opt, chr. cbn [chars_in].
  repeat split; intros c Hc; apply domain_char_not_at; auto.
  - apply N.eqb_eq in Hc. auto.
  - apply alpha_alnum in Hc. auto.
Qed.

Lemma domain_pattern_no_groups :
  group_names (Seq (plus EmailValidator.label_dot) (Rep 2 None (Chr alpha))) = [].
Proof. reflexivity. Qed.

(** Any way [EMAIL_REGEX] matches sets the group [local] to what stands
    before the last ['@'] and [domain] to what follows it. *)
Lemma email_regex_groups s rest m :
  In (rest, m) (run EmailValidator.EMAIL_REGEX s ∅) →
  ∃ l dom,
    m !! "local" = Some l ∧ m !! "domain" = Some dom
    ∧ s = l ++ ord "@" :: dom ++ rest
    ∧ ¬ In (ord "@") dom
    ∧ (rest = [] ∨ rest = [newline]).
Proof.
  unfold EmailValidator.EMAIL_REGEX. intros Hm.
  apply seq_inv in Hm as ([s1 g1] & H1 & Hm).
  apply group_inv in H1 as (l & g0 & -> & _ & Hg1).
  apply seq_inv in Hm as ([s2 g2] & H2 & Hm).
  apply chr_inv in H2 as (c & Hs1 & Hc%N.eqb_eq & Hg2).
  apply seq_inv in Hm as ([s3 g3] & H3 & Hm).
  apply group_inv in H3 as (dom & g3' & Hs2 & Hdom & Hg3).
  apply dollar_inv in Hm as [[= <- <-] Hrest].
  cbn [fst snd] in *. subst s1 s2 g1 g2 c m.
  destruct (run_word _ _ _ _ _ domain_pattern_chars Hdom) as (w & Hw & Hchars).
  cbn [fst snd] in Hw. apply app_inv_tail in Hw as <-.
  pose proof (run_groups _ _ _ _ "local"
                ltac:(rewrite domain_pattern_no_groups; set_solver) Hdom)
    as Hlocal.
  cbn [fst snd] in Hlocal.
  exists l, dom. repeat split; auto.
  - rewrite lookup_insert_ne by done. rewrite Hlocal. by rewrite lookup_insert_eq.
  - by rewrite lookup_insert_eq.
  - intros Hin%list_elem_of_In. by apply (proj1 (Forall_forall _ _) Hchars _ Hin).
Qed.

(** [EMAIL_REGEX] accepts a local part of [atext] characters followed by
    ['@'], one label of 2 to 63 characters that starts and ends with an
    alphanumeric, a dot and 2 or more letters. *)
Lemma email_regex_accepts l c0 mid c1 t :
  l ≠ [] → Forall (λ c, atext c = true) l →
  alnum c0 = true → Forall (λ c, alnum_hyphen c = true) mid →
  (length mid ≤ 61)%nat → alnum c1 = true →
  Forall (λ c, alpha c = true) t → (2 ≤ length t)%nat →
  ∃ m, In ([], m)
         (run EmailValidator.EMAIL_REGEX
            (l ++ ord "@" :: c0 :: mid ++ c1 :: ord "." :: t) ∅).
Proof.
  intros Hl0 Hl Hc0 Hmid Hlen Hc1 Ht Ht2.
  assert (Hl1 : (1 ≤ length l)%nat) by (destruct l; [done|simpl; lia]).
  unfold EmailValidator.EMAIL_REGEX. eexists.
  set (dom := c0 :: mid ++ c1 :: ord "." :: t).
  eapply seq_intro.
  { apply (group_intro _ _ _ _ (ord "@" :: dom, ∅)).
    apply in_or_app. right.
    apply (seq_intro _ _ _ _ (ord "@" :: dom, ∅)).
    - by apply (rep_chr_intro 1 None atext).
    - apply rep_intro_none. }
  cbn [fst snd]. eapply seq_intro.
  { apply chr_intro. apply N.eqb_refl. }
  cbn [fst snd]. eapply seq_intro.
  { eapply (group_intro _ _ _ _ ([], _)).
    eapply (seq_intro _ _ _ _ (t, _)).
    - apply rep_intro_once; [lia|done| |].
      + unfold EmailValidator.label_dot, dom.
        eapply (seq_intro _ _ _ _ (mid ++ c1 :: ord "." :: t, _)).
        { by apply chr_intro. }
        eapply (seq_intro _ _ _ _ (ord "." :: t, _)).
        * apply rep_intro_once; [lia|done| |].
          -- eapply (seq_intro _ _ _ _ (c1 :: ord "." :: t, _)).
             ++ by apply (rep_chr_intro 0 (Some 61%nat) alnum_hyphen);
                  [|lia|intros h [= <-]].
             ++ by apply chr_intro.
          -- cbn [fst]. rewrite length_app. simpl. lia.
        * apply chr_intro. apply N.eqb_refl.
      + unfold dom. simpl. rewrite length_app. simpl. lia.
    - cbn [fst snd]. rewrite <-(app_nil_r t) at 1.
      by apply (rep_chr_intro 2 None alpha). }
  cbn [fst snd]. by left.
Qed.

End Patterns.

(** ** Plain addresses *)

Section PlainAddress.
Variables l d t : str.
Hypothesis Hl0 : l ≠ [].
Hypothesis Hl : Forall (λ c, alnum c = true) l.
Hypothesis Hd : Forall (λ c, alpha c = true) d.
Hypothesis Hd2 : (2 ≤ length d ≤ 63)%nat.
Hypothesis Ht : Forall (λ c, alpha c = true) t.
Hypothesis Ht2 : (2 ≤ length t)%nat.

Let core : str := l ++ ord "@" :: d ++ ord "." :: t.

(** Characters that no alphanumeric is: those below ['0'], and ['@']. *)
Let special (x : char) : Prop := (x < 48 ∨ x = 64)%N.

Lemma alnum_ne_special x s :
  special x → Forall (λ c, alnum c = true) s → Forall (λ c, c ≠ x) s.
Proof.
  intros Hx Hs. eapply Forall_impl; [exact Hs|].
  intros c Hc%alnum_codes. unfold special in Hx. lia.
Qed.

Lemma alpha_ne_special x s :
  special x → Forall (λ c, alpha c = true) s → Forall (λ c, c ≠ x) s.
Proof.
  intros Hx Hs. apply (alnum_ne_special x s Hx).
  eapply Forall_impl; [exact Hs|]. apply alpha_alnum.
Qed.

Lemma plain_no_dots : contains (lit "..") core = false.
Proof.
  assert (Hdot : special 46) by (unfold special; lia).
  change (lit "..") with [46; 46]%N. unfold core. change (ord ".") with 46%N.
  rewrite contains_skip by (by apply alnum_ne_special).
  rewrite contains_cons_ne by done.
  rewrite contains_skip by (by apply alpha_ne_special).
  rewrite contains_cons_eq.
  rewrite (contains_absent 46 [46] t) by (by apply alpha_ne_special).
  pose proof Ht as Ht'. destruct Ht' as [|c t' Hc _]; [done|].
  rewrite startswith_cons_ne; [done|].
  apply alpha_alnum, alnum_codes in Hc. lia.
Qed.

Lemma plain_no_at_dot : contains (lit "@.") core = false.
Proof.
  assert (Hat : special 64) by (unfold special; lia).
  change (lit "@.") with [64; 46]%N. unfold core. change (ord "@") with 64%N.
  rewrite contains_skip by (by apply alnum_ne_special).
  rewrite contains_cons_eq.
  rewrite contains_absent.
  - pose proof Hd as Hd'. pose proof Hd2 as Hlen.
    destruct Hd' as [|c d' Hc _]; [simpl in Hlen; lia|].
    rewrite <-app_comm_cons, startswith_cons_ne; [done|].
    apply alpha_alnum, alnum_codes in Hc. lia.
  - apply Forall_app. split; [by apply alpha_ne_special|].
    apply Forall_cons. split; [done|by apply alpha_ne_special].
Qed.

Lemma plain_chars_ne x : special x → x ≠ 46%N → x ≠ 64%N → Forall (λ c, c ≠ x) core.
Proof.
  intros Hx Hdot Hat. unfold core.
  apply Forall_app. split; [by apply alnum_ne_special|].
  apply Forall_cons. split; [done|].
  apply Forall_app. split; [by apply alpha_ne_special|].
  apply Forall_cons. split; [done|by apply alpha_ne_special].
Qed.

Lemma plain_no_space : contains (lit " ") core = false.
Proof.
  change (lit " ") with [32]%N. apply contains_absent.
  apply plain_chars_ne; unfold special; lia.
Qed.

Lemma plain_one_at : count (ord "@") core = 1%nat.
Proof.
  assert (Hat : special 64) by (unfold special; lia).
  unfold core. change (ord "@") with 64%N.
  rewrite count_app, count_absent by (by apply alnum_ne_special).
  rewrite count_cons_eq, count_absent; [done|].
  apply Forall_app. split; [by apply alpha_ne_special|].
  apply Forall_cons. split; [done|by apply alpha_ne_special].
Qed.

(** Trimming gives the address back, also when a newline follows it. *)
Lemma plain_strip tail : tail = [] ∨ tail = [newline] → strip (core ++ tail) = core.
Proof.
  intros Htail. unfold strip.
  assert (Hfirst : lstrip (core ++ tail) = core ++ tail).
  { unfold core. pose proof Hl as Hl'. pose proof Hl0 as Hne.
    destruct Hl' as [|c l' Hc _]; [done|].
    rewrite <-!app_comm_cons. apply lstrip_cons. by apply alnum_not_space. }
  rewrite Hfirst.
  assert (Hlast : ∃ pre c, core = pre ++ [c] ∧ isspace c = false).
  { unfold core. clear Hfirst. pose proof Ht as Ht'. pose proof Ht2 as Hlen.
    revert Ht' Hlen. generalize t as u.
    intros u. destruct u as [|c0 t0 _] using rev_ind; intros Ht' Hlen;
      [simpl in Hlen; lia|].
    exists (l ++ ord "@" :: d ++ ord "." :: t0), c0. split.
    - by rewrite <-!app_assoc, <-!app_comm_cons, <-!app_assoc.
    - apply Forall_app in Ht' as [_ Hc0]. apply Forall_cons in Hc0 as [Hc0 _].
      by apply alnum_not_space, alpha_alnum. }
  destruct Hlast as (pre & c & -> & Hc).
  destruct Htail as [->| ->].
  - rewrite app_nil_r. by apply rstrip_snoc.
  - rewrite rstrip_snoc_space by done. by apply rstrip_snoc.
Qed.

(** The pattern of the validator accepts the address, with the local part
    in its group. *)
Lemma plain_match :
  ∃ m, re_match EmailValidator.EMAIL_REGEX core = Some m ∧ group m "local" = l.
Proof.
  assert (Hnot_at : ¬ In (ord "@") (d ++ ord "." :: t)).
  { intros Hin%list_elem_of_In.
    assert (Hall : Forall (λ c, c ≠ 64%N) (d ++ ord "." :: t)).
    { apply Forall_app. split; [apply alpha_ne_special; [right|]; done|].
      apply Forall_cons. split; [done|apply alpha_ne_special; [right|]; done]. }
    by apply (proj1 (Forall_forall _ _) Hall _ Hin). }
  assert (Haccepts : ∃ m, In ([], m) (run EmailValidator.EMAIL_REGEX core ∅)).
  { unfold core. pose proof Hd as Hd'. pose proof Hd2 as Hlen.
    revert Hd' Hlen. generalize d as u.
    intros [|c0 d0] Hd' Hlen; [simpl in Hlen; lia|].
    destruct d0 as [|c1 mid _] using rev_ind; [simpl in Hlen; lia|].
    rewrite length_cons, length_app in Hlen. simpl in Hlen.
    apply Forall_cons in Hd' as [Hc0 Hd0].
    apply Forall_app in Hd0 as [Hmid Hc1]. apply Forall_cons in Hc1 as [Hc1 _].
    rewrite <-app_comm_cons, <-app_assoc. cbn [app].
    apply email_regex_accepts; auto.
    - eapply Forall_impl; [exact Hl|]. apply alnum_atext.
    - by apply alpha_alnum.
    - eapply Forall_impl; [exact Hmid|].
      intros c Hc. by apply alnum_alnum_hyphen, alpha_alnum.
    - lia.
    - by apply alpha_alnum. }
  destruct Haccepts as [m0 Hm0].
  destruct (re_match_intro _ _ _ Hm0) as [m Hm]. exists m. split; [done|].
  apply re_match_inv in Hm as [rest Hm].
  apply email_regex_groups in Hm as (l' & dom & Hlocal & _ & Hcore & Hdom & Hrest).
  unfold group. rewrite Hlocal. simpl.
  unfold core in Hcore.
  assert (Hnot_at' : ¬ In (ord "@") (dom ++ rest)).
  { intros [Hin|Hin]%in_app_or; [done|].
    destruct Hrest as [->| ->]; [done|]. by destruct Hin. }
  by destruct (last_split_unique _ _ _ _ _ Hcore Hnot_at Hnot_at') as [-> _].
Qed.

Lemma plain_local_checks :
  startswith l [dquote] = false ∧ contains (lit "+") l = false.
Proof.
  split.
  - pose proof Hl as Hl'. pose proof Hl0 as Hne.
    destruct Hl' as [|c l' Hc _]; [done|].
    apply startswith_cons_ne. apply alnum_codes in Hc. unfold dquote. lia.
  - change (lit "+") with [43]%N. apply contains_absent.
    apply alnum_ne_special; [|done]. unfold special. lia.
Qed.

(** The format validator on a plain address, possibly followed by a
    newline: valid, no error, and the warning about whitespace when the
    newline is there. *)
Lemma plain_format tail :
  tail = [] ∨ tail = [newline] →
  (length (core ++ tail) ≤ 254)%nat →
  (length l ≤ 64)%nat →
  EmailValidator._validate_format (VStr (core ++ tail))
  = (true, [],
     EmailValidator.append_if (bool_decide (core ≠ core ++ tail))
       "Email contains leading or trailing whitespace" []).
Proof.
  intros Htail Hlen Hllen.
  assert (Htruthy : truthy (VStr (core ++ tail)) = true).
  { unfold core. pose proof Hl0 as Hne. destruct l; [done|]. done. }
  unfold EmailValidator._validate_format. rewrite Htruthy. cbn [negb].
  cbv zeta. rewrite (plain_strip tail Htail).
  assert (Hpick : (if bool_decide (core ≠ core ++ tail) then core else core ++ tail)
                  = core).
  { case_bool_decide as Hne; [done|].
    by destruct (decide (core = core ++ tail)) as [<-|?]. }
  rewrite Hpick.
  rewrite plain_no_dots, plain_no_space, plain_one_at, plain_no_at_dot.
  destruct plain_match as (m & -> & Hlocal). rewrite Hlocal.
  destruct plain_local_checks as [-> ->].
  assert (Hlen' : (EmailValidator.MAX_EMAIL_LENGTH <? length (core ++ tail))%nat = false).
  { apply Nat.ltb_ge. unfold EmailValidator.MAX_EMAIL_LENGTH. lia. }
  assert (Hllen' : (EmailValidator.MAX_LOCAL_LENGTH <? length l)%nat = false).
  { apply Nat.ltb_ge. unfold EmailValidator.MAX_LOCAL_LENGTH. lia. }
  rewrite Hlen', Hllen'. done.
Qed.

End PlainAddress.

(** ** The format validator *)

Lemma split_unique (x : char) (a b a' b' : str) :
  a ++ x :: b = a' ++ x :: b' → ¬ In x a' → ¬ In x b' → a = a'.
Proof.
  revert a. induction a' as [|c' a' IH]; intros [|c a] Heq Ha' Hb'; simpl in Heq.
  - done.
  - injection Heq as -> <-. destruct Hb'. apply in_or_app. right. by left.
  - injection Heq as <- _. destruct Ha'. by left.
  - injection Heq as -> Heq. f_equal. apply (IH a Heq); [|done].
    intros Hin. apply Ha'. by right.
Qed.

(** A candidate that passes the format validator contains an ['@']. *)
Lemma format_valid_has_at (s : str) : format_valid (VStr s) = true → In (ord "@") s.
Proof.
  unfold format_valid, EmailValidator._validate_format.
  destruct (negb (truthy (VStr s))); [done|]. cbv zeta.
  destruct (re_match _ _) as [m|] eqn:Hm; [|done]. intros _.
  apply re_match_inv in Hm as [rest Hm].
  apply email_regex_groups in Hm as (l & dom & _ & _ & Heq & _).
  assert (Hin : In (ord "@") (if bool_decide (strip s ≠ s) then strip s else s)).
  { rewrite Heq. apply in_or_app. right. by left. }
  case_bool_decide; [by apply strip_In|done].
Qed.

(** C2. A string that matches
    [^[A-Za-z0-9]+@[A-Za-z]{2,63}\.[A-Za-z]{2,}$], of length at most 254,
    with a local part [l] of at most 64 characters and a domain [d] of at
    most 255, is valid for a validator that does not check MX records:
    [is_valid] answers true and the result has no error. *)
Theorem plain_address_is_valid {S : Type} `{!DNSServiceBase S}
    (self : EmailValidator S) (s l d : str) :
  check_mx self = false →
  is_Some (re_match SIMPLE_REGEX s) →
  s = l ++ ord "@" :: d →
  (length s ≤ 254)%nat → (length l ≤ 64)%nat → (length d ≤ 255)%nat →
  (EmailValidator.is_valid self (VStr s)).1 = true
  ∧ is_valid (EmailValidator.validate self (VStr s)).1 = true
  ∧ errors (EmailValidator.validate self (VStr s)).1 = [].
Proof.
  intros Hflag Hmatch Hparts Hlen Hllen _.
  apply simple_regex_inv in Hmatch
    as (l0 & d0 & t0 & tail & Hs & Hl0 & Hl & Hd & Hd2 & Ht & Ht2 & Htail).
  assert (l = l0) as ->.
  { rewrite Hs, <-!app_assoc, <-!app_comm_cons in Hparts.
    assert (Hat : ∀ u, Forall (λ c, alnum c = true) u → ¬ In (ord "@") u).
    { intros u Hu Hin%list_elem_of_In.
      apply (proj1 (Forall_forall _ _) Hu), alnum_codes in Hin.
      change (ord "@") with 64%N in Hin. lia. }
    symmetry in Hparts. apply (split_unique _ _ _ _ _ Hparts); [by apply Hat|].
    intros [[Hin|[Hin|Hin]]%in_app_or|Hin]%in_app_or.
    - revert Hin. apply Hat. eapply Forall_impl; [exact Hd|]. apply alpha_alnum.
    - done.
    - revert Hin. apply Hat. eapply Forall_impl; [exact Ht|]. apply alpha_alnum.
    - destruct Htail as [->| ->]; [done|]. by destruct Hin. }
  assert (Hfmt := plain_format l0 d0 t0 Hl0 Hl Hd Hd2 Ht Ht2 tail Htail).
  rewrite <-Hs in Hfmt. specialize (Hfmt Hlen Hllen).
  unfold EmailValidator.is_valid.
  rewrite validate_skips_mx by (by rewrite Hflag, andb_false_r).
  unfold format_valid, format_errors. by rewrite Hfmt.
Qed.

(** C3, as amended.  For every candidate that is not a string and is
    truthy, the format validator returns at once with [valid = false] and
    the one error that names the type of the value. *)
Theorem truthy_non_string_names_type (e : value) :
  is_str e = false →
  truthy e = true →
  EmailValidator._validate_format e
  = (false, ["Email must be a string, got " +:+ type_name e], []).
Proof.
  intros Hstr Htruthy. unfold EmailValidator._validate_format.
  rewrite Htruthy. by destruct e.
Qed.

(** C5. MX checking on, stand-in resolver configured with
    [{"no-mx.test": False}]: for ["user@no-mx.test"] the lookup answers
    false, the result is invalid, the MX step adds no error and the
    warnings are the one about the missing MX record. *)
Theorem no_mx_record_scenario :
  let e := VStr (lit "user@no-mx.test") in
  let r := (EmailValidator.validate (with_mock [("no-mx.test", false)]) e).1 in
  mx_valid r = Some false
  ∧ is_valid r = false
  ∧ errors r = format_errors e
  ∧ errors r = []
  ∧ warnings r = ["No MX record found for domain"].
Proof. vm_compute. done. Qed.

(** What a lookup does to the result and to the resolver. *)
Lemma validate_calls_resolver {S : Type} `{!DNSServiceBase S}
    (self : EmailValidator S) (svc : S) (s : str) :
  format_valid (VStr s) = true →
  check_mx self = true →
  dns_service self = Some svc →
  ∃ pre dom,
    s = pre ++ ord "@" :: dom ∧ ¬ In (ord "@") dom
    ∧ dns_service (EmailValidator.validate self (VStr s)).2
      = Some (check_mx_record svc dom).2
    ∧ mx_valid (EmailValidator.validate self (VStr s)).1
      = match (check_mx_record svc dom).1 with
        | Returns b => Some b
        | Raises _ => None
        end.
Proof.
  intros Hfv Hflag Hsvc.
  pose proof (format_valid_has_at s Hfv) as Hat.
  pose proof (rpartition_spec (ord "@") s) as Hspec.
  destruct (rpartition (ord "@") s) as [[pre dom]|] eqn:Hpart; [|done].
  destruct Hspec as [Hs Hdom]. exists pre, dom. split; [done|]. split; [done|].
  rewrite validate_runs_mx by (by rewrite Hfv, Hflag).
  unfold EmailValidator._check_mx_record, rsplit1. rewrite Hsvc, Hpart.
  cbn [last default from_option id].
  by destruct (check_mx_record svc dom) as [[b|msg] svc'].
Qed.

(** On the stand-in resolver the call shows in the history: one entry
    more, for the text after the last ['@'] of the candidate. *)
Lemma mock_records_lookup (self : EmailValidator MockDNSService)
    (svc : MockDNSService) (s : str) :
  format_valid (VStr s) = true →
  check_mx self = true →
  dns_service self = Some svc →
  ∃ pre dom,
    s = pre ++ ord "@" :: dom ∧ ¬ In (ord "@") dom
    ∧ call_history <$> dns_service (EmailValidator.validate self (VStr s)).2
      = Some (call_history svc ++ [("check_mx_record", dom)]).
Proof.
  intros Hfv Hflag Hsvc.
  destruct (validate_calls_resolver self svc s Hfv Hflag Hsvc)
    as (pre & dom & Hs & Hdom & -> & _).
  by exists pre, dom.
Qed.

(** C6. When the orchestrator looks up MX records (format valid, MX
    checking enabled, resolver configured), the resolver is called once,
    on the text that follows the last ['@'] of the candidate as it was
    received: the resolver is left in the state that this call produces
    and [mx_valid] is what this call answered. *)
Theorem mx_lookup_on_untrimmed_domain {S : Type} `{!DNSServiceBase S}
    (self : EmailValidator S) (svc : S) (s : str) :
  format_valid (VStr s) = true →
  check_mx self = true →
  dns_service self = Some svc →
  ∃ pre dom,
    s = pre ++ ord "@" :: dom ∧ ¬ In (ord "@") dom
    ∧ dns_service (EmailValidator.validate self (VStr s)).2
      = Some (check_mx_record svc dom).2
    ∧ mx_valid (EmailValidator.validate self (VStr s)).1
      = match (check_mx_record svc dom).1 with
        | Returns b => Some b
        | Raises _ => None
        end.
Proof. apply validate_calls_resolver. Qed.

(** C10. Trimming and the extraction of the domain diverge: with MX
    checking on and the stand-in resolver configured with
    [{"example.com": True}], the candidate ["user@example.com "] passes the
    format validator with the warning about whitespace, the resolver is
    asked about ["example.com "] with the space, which it does not know,
    and the result has [mx_valid = False] and is invalid. *)
Theorem trailing_space_breaks_mx :
  let e := VStr (lit "user@example.com ") in
  let self := with_mock [("example.com", true)] in
  let out := EmailValidator.validate self e in
  format_valid e = true
  ∧ format_warnings e = ["Email contains leading or trailing whitespace"]
  ∧ call_history <$> dns_service out.2
    = Some [("check_mx_record", lit "example.com ")]
  ∧ (responses <$> dns_service self) ≫= (.!! lit "example.com") = Some true
  ∧ (responses <$> dns_service self) ≫= (.!! lit "example.com ") = None
  ∧ mx_valid out.1 = Some false
  ∧ is_valid out.1 = false.
Proof. vm_compute. done. Qed.

(** C3 as stated fails: the emptiness test comes before the type test, so
    the integer [0], which is not a string, is reported as empty and its
    type is not named. *)
Lemma falsy_non_string_not_named :
  is_str (VInt 0) = false
  ∧ EmailValidator._validate_format (VInt 0) = (false, ["Email address is empty"], [])
  ∧ ¬ In ("Email must be a string, got " +:+ type_name (VInt 0))
        (format_errors (VInt 0)).
Proof.
  split; [done|]. split; [done|]. vm_compute. intros [H|[]]. discriminate H.
Qed.

(** ** Instances of the theorems *)

Lemma mx_valid_gated_witness :
  let self := with_mock [("gmail.com", true)] in
  (format_valid (VStr (lit "user@gmail.com")) = true ∧ check_mx self = true)
  ∧ mx_valid (EmailValidator.validate self (VStr (lit "user@@gmail.com"))).1 = None.
Proof.
  cbn zeta. split.
  - apply (proj1 (mx_valid_gated (with_mock [("gmail.com", true)])
                    (VStr (lit "user@gmail.com")))).
    vm_compute. discriminate.
  - apply (proj2 (mx_valid_gated (with_mock [("gmail.com", true)])
                    (VStr (lit "user@@gmail.com")))).
    vm_compute. reflexivity.
Defined.

Lemma plain_address_is_valid_witness :
  let self := EmailValidator.__init__ (S := MockDNSService) false None in
  let e := VStr (lit "user@example.com") in
  (EmailValidator.is_valid self e).1 = true
  ∧ is_valid (EmailValidator.validate self e).1 = true
  ∧ errors (EmailValidator.validate self e).1 = [].
Proof.
  cbn zeta.
  apply (plain_address_is_valid (EmailValidator.__init__ false None)
           (lit "user@example.com") (lit "user") (lit "example.com")).
  - reflexivity.
  - apply (bool_decide_unpack _). vm_compute. exact I.
  - reflexivity.
  - apply Nat.leb_le. vm_compute. reflexivity.
  - apply Nat.leb_le. vm_compute. reflexivity.
  - apply Nat.leb_le. vm_compute. reflexivity.
Defined.

Lemma truthy_non_string_names_type_witness :
  EmailValidator._validate_format (VInt 12345)
  = (false, ["Email must be a string, got int"], []).
Proof.
  apply (truthy_non_string_names_type (VInt 12345)); reflexivity.
Defined.

Lemma mx_without_resolver_witness :
  let self := EmailValidator.__init__ (S := MockDNSService) true None in
  let e := VStr (lit "user@example.com") in
  let r := (EmailValidator.validate self e).1 in
  errors r = format_errors e ++ ["DNS service not configured for MX record checking"]
  ∧ errors r = ["DNS service not configured for MX record checking"]
  ∧ mx_valid r = None
  ∧ is_valid r = true.
Proof.
  apply (mx_without_resolver (EmailValidator.__init__ true None)
           (VStr (lit "user@example.com"))).
  - reflexivity.
  - reflexivity.
  - vm_compute. reflexivity.
Defined.

Lemma mx_lookup_on_untrimmed_domain_witness :
  let self := with_mock [("example.com", true)] in
  let s := lit "user@example.com " in
  ∃ pre dom,
    s = pre ++ ord "@" :: dom ∧ ¬ In (ord "@") dom
    ∧ dns_service (EmailValidator.validate self (VStr s)).2
      = Some (check_mx_record (MockDNSService.__init__
                                 (Some (list_to_map [(lit "example.com", true)]))) dom).2
    ∧ mx_valid (EmailValidator.validate self (VStr s)).1
      = match (check_mx_record (MockDNSService.__init__
                                  (Some (list_to_map [(lit "example.com", true)]))) dom).1 with
        | Returns b => Some b
        | Raises _ => None
        end.
Proof.
  apply (mx_lookup_on_untrimmed_domain (with_mock [("example.com", true)])
           (MockDNSService.__init__ (Some (list_to_map [(lit "example.com", true)])))
           (lit "user@example.com ")).
  - vm_compute. reflexivity.
  - reflexivity.
  - reflexivity.
Defined.

Lemma mock_is_deterministic : deterministic MockDNSService.
Proof. intros svc d' d. reflexivity. Qed.

Lemma validate_batch_pointwise_witness :
  let self := with_mock [("gmail.com", true); ("no-mx.test", false)] in
  let L := [VStr (lit "user@gmail.com"); VInt 0; VStr (lit "user@no-mx.test");
            VStr (lit "not an address")] in
  let out := (EmailValidator.validate_batch self L).1 in
  length out = length L
  ∧ ∀ (i : nat) e, L !! i = Some e →
      out !! i = Some (EmailValidator.validate self e).1.
Proof.
  apply (validate_batch_pointwise
           (with_mock [("gmail.com", true); ("no-mx.test", false)])).
  intros svc d' d. reflexivity.
Defined.

Lemma falsy_is_empty_witness :
  Forall
    (λ e, let r := (EmailValidator.validate (with_mock []) e).1 in
          is_valid r = false
          ∧ errors r = ["Email address is empty"]
          ∧ mx_valid r = None)
    [VNone; VInt 0; VBool false; VStr []; VList []].
Proof.
  repeat (apply Forall_cons_2;
            [apply (falsy_is_empty (with_mock [])); reflexivity|]).
  apply Forall_nil_2.
Defined.

(** * Further properties *)

(** ** Trimming *)

Section Trimming.
Implicit Types (s u v : str) (c : char).

Lemma lstrip_head s c v : lstrip s = c :: v → isspace c = false.
Proof.
  induction s as [|a s IH]; [done|]. simpl.
  destruct (isspace a) eqn:Ha; [done|]. by intros [= <- _].
Qed.

Lemma lstrip_idem s : lstrip (lstrip s) = lstrip s.
Proof.
  destruct (lstrip s) as [|c v] eqn:Hs; [done|].
  apply lstrip_cons. by eapply lstrip_head.
Qed.

Lemma lstrip_snoc s c : isspace c = false → lstrip (s ++ [c]) = lstrip s ++ [c].
Proof.
  intros Hc. induction s as [|a s IH]; simpl; [by rewrite Hc|].
  by destruct (isspace a).
Qed.

Lemma rstrip_cons c s : isspace c = false → rstrip (c :: s) = c :: rstrip s.
Proof.
  intros Hc. unfold rstrip. cbn [rev].
  by rewrite lstrip_snoc, rev_app_distr.
Qed.

Lemma rstrip_idem s : rstrip (rstrip s) = rstrip s.
Proof. unfold rstrip. by rewrite rev_involutive, lstrip_idem. Qed.

(** What [strip] returns has no whitespace at either end, so trimming it
    again changes nothing. *)
Lemma strip_last s v c : strip s = v ++ [c] → isspace c = false.
Proof.
  unfold strip, rstrip. intros Hs.
  apply (f_equal (@rev char)) in Hs. rewrite rev_involutive, rev_app_distr in Hs.
  cbn [rev app] in Hs. by eapply lstrip_head.
Qed.

Lemma strip_idem s : strip (strip s) = strip s.
Proof.
  unfold strip.
  assert (Hl : lstrip (rstrip (lstrip s)) = rstrip (lstrip s)).
  { destruct (lstrip s) as [|c v] eqn:Hs; [done|].
    apply lstrip_head in Hs. rewrite rstrip_cons by done. by apply lstrip_cons. }
  by rewrite Hl, rstrip_idem.
Qed.

Lemma strip_nil : strip [] = [].
Proof. reflexivity. Qed.

End Trimming.

(** ** What the pattern of the validator accepts *)

Section AcceptedShape.
Implicit Types (s l dom w : str) (c : char) (g : groups) (y : state).

(** A repetition whose rounds all end with [c] has matched nothing or a
    text that ends with [c]. *)
Lemma rounds_ends body c lo hi fuel n s g y :
  (∀ s g y, In y (body s g) → ∃ w, s = w ++ c :: y.1) →
  In y (rounds body lo hi fuel n s g) →
  (y = (s, g) ∧ (lo ≤ n)%nat) ∨ ∃ w, s = w ++ c :: y.1.
Proof.
  intros Hbody. revert n s g.
  induction fuel as [|fuel IH]; intros n s g Hy;
    apply rounds_inv in Hy as [?|(_ & fuel' & s1 & g1 & Hf & Hb & _ & Hy)];
    auto; try done.
  injection Hf as <-. right.
  destruct (Hbody _ _ _ Hb) as [w1 ->]. cbn [fst] in *.
  destruct (IH _ _ _ Hy) as [[-> _]|[w2 ->]].
  - by exists w1.
  - exists (w1 ++ c :: w2). by rewrite <-app_assoc.
Qed.

Lemma label_dot_ends s g y :
  In y (run EmailValidator.label_dot s g) → ∃ w, s = w ++ ord "." :: y.1.
Proof.
  unfold EmailValidator.label_dot. intros Hy.
  apply seq_inv in Hy as (y1 & H1 & Hy).
  apply run_suffix in H1 as [w1 ->].
  apply seq_inv in Hy as (y2 & H2 & Hy).
  apply run_suffix in H2 as [w2 H2].
  apply chr_inv in Hy as (c & Hy2 & Hc%N.eqb_eq & _). subst c.
  exists (w1 ++ w2). by rewrite <-app_assoc, H2, Hy2.
Qed.

Lemma alt_inv r1 r2 s g y :
  In y (run (Alt r1 r2) s g) → In y (run r1 s g) ∨ In y (run r2 s g).
Proof. intros Hy. by apply in_app_or. Qed.

Lemma local_pattern_nonempty s g y :
  In y (run (Alt EmailValidator.quoted EmailValidator.unquoted) s g) → s ≠ y.1.
Proof.
  intros Hy Heq.
  assert (Hlen : (length y.1 < length s)%nat); [|rewrite Heq in Hlen; lia].
  apply alt_inv in Hy as [Hy|Hy].
  - unfold EmailValidator.quoted in Hy. apply seq_inv in Hy as (y1 & H1 & Hy).
    apply chr_inv in H1 as (c & -> & _). apply run_suffix in Hy as [w ->].
    rewrite length_cons, length_app. lia.
  - unfold EmailValidator.unquoted in Hy. apply seq_inv in Hy as (y1 & H1 & Hy).
    apply rep_chr_inv in H1 as (w1 & -> & _ & _ & Hw1 & _).
    apply run_suffix in Hy as [w ->]. rewrite !length_app. lia.
Qed.

(** Any match of [EMAIL_REGEX]: a non-empty local part, ['@'], and a
    domain of letters, digits, hyphens and dots that ends with a dot and
    two or more letters. *)
Lemma email_regex_shape s rest m :
  In (rest, m) (run EmailValidator.EMAIL_REGEX s ∅) →
  ∃ l pre tld,
    m !! "local" = Some l
    ∧ s = l ++ ord "@" :: (pre ++ ord "." :: tld) ++ rest
    ∧ l ≠ []
    ∧ Forall (λ c, alnum_hyphen c = true ∨ c = ord ".") pre
    ∧ Forall (λ c, alpha c = true) tld ∧ (2 ≤ length tld)%nat
    ∧ ¬ In (ord "@") (pre ++ ord "." :: tld)
    ∧ (rest = [] ∨ rest = [newline]).
Proof.
  intros Hm.
  destruct (email_regex_groups _ _ _ Hm) as (l & dom & Hlocal & _ & Hs & Hat & Hrest).
  unfold EmailValidator.EMAIL_REGEX in Hm.
  apply seq_inv in Hm as ([s1 g1] & H1 & Hm).
  apply group_inv in H1 as (l' & g0 & Hs1 & Hl' & _). cbn [fst snd] in *.
  apply seq_inv in Hm as ([s2 g2] & H2 & Hm).
  apply chr_inv in H2 as (c & Hs2 & Hc%N.eqb_eq & _). cbn [fst snd] in *. subst c.
  apply seq_inv in Hm as ([s3 g3] & H3 & Hm).
  apply dollar_inv in Hm as [[= <- <-] _].
  apply group_inv in H3 as (dom' & g3' & Hs3 & Hdom & _). cbn [fst snd] in *.
  assert (Hdom_at : ¬ In (ord "@") dom').
  { destruct (run_word _ _ _ _ _ domain_pattern_chars Hdom) as (w & Hw & Hchars).
    cbn [fst] in Hw. rewrite Hs3 in Hw. apply app_inv_tail in Hw as <-.
    intros Hin%list_elem_of_In. by apply (proj1 (Forall_forall _ _) Hchars _ Hin). }
  assert (l' = l ∧ dom' ++ rest = dom ++ rest) as [-> Hdd].
  { apply (last_split_unique (ord "@")).
    - by rewrite <-Hs, Hs1, Hs2, Hs3.
    - intros [?|Hin]%in_app_or; [done|]. destruct Hrest as [->| ->]; [done|].
      by destruct Hin.
    - intros [?|Hin]%in_app_or; [done|]. destruct Hrest as [->| ->]; [done|].
      by destruct Hin. }
  apply app_inv_tail in Hdd as ->.
  assert (Hne : l ≠ []).
  { intros ->. apply local_pattern_nonempty in Hl'. by rewrite Hs1 in Hl'. }
  apply seq_inv in Hdom as ([s4 g4] & H4 & Hdom). cbn [fst snd] in *.
  apply rep_chr_inv in Hdom as (tld & Hs4 & _ & Htld & Htld2 & _). cbn [fst] in Hs4.
  pose proof H4 as Hpre_chars.
  apply (run_word (λ c, alnum_hyphen c = true ∨ c = ord ".")) in Hpre_chars
    as (w & Hw & Hwchars).
  2:{ unfold plus, EmailValidator.label_dot, opt, chr. cbn [chars_in].
      repeat split; intros c Hc; auto.
      - left. by apply alnum_alnum_hyphen.
      - left. by apply alnum_alnum_hyphen.
      - apply N.eqb_eq in Hc. auto. }
  cbn [fst] in Hw.
  change (run (plus EmailValidator.label_dot) s2 g2)
    with (rounds (run EmailValidator.label_dot) 1 None (length s2) 0 s2 g2) in H4.
  apply (rounds_ends _ (ord ".")) in H4 as [[_ ?]|[pre Hpre]];
    [lia| |apply label_dot_ends].
  cbn [fst] in Hpre.
  assert (w = pre ++ [ord "."]) as ->.
  { apply (app_inv_tail s4). rewrite <-Hw, Hpre, <-app_assoc. done. }
  apply Forall_app in Hwchars as [Hprechars _].
  assert (dom = pre ++ ord "." :: tld) as ->.
  { apply (app_inv_tail rest). rewrite <-Hs3, Hpre, Hs4. by rewrite <-!app_assoc. }
  exists l, pre, tld. repeat split; auto.
Qed.

End AcceptedShape.

(** ** The format validator, case by case *)

Section FormatCases.
Implicit Types (s t l d : str) (c : char) (msg : string).

Lemma pick_trimmed s : (if bool_decide (strip s ≠ s) then strip s else s) = strip s.
Proof.
  case_bool_decide as Hne; [done|].
  by destruct (decide (strip s = s)) as [->|?].
Qed.

Lemma append_if_app (b : bool) msg (errs : list string) :
  EmailValidator.append_if b msg errs = errs ++ (if b then [msg] else []).
Proof. destruct b; simpl; [done|by rewrite app_nil_r]. Qed.

Lemma In_append_if (b : bool) msg msg' (errs : list string) :
  In msg' (EmailValidator.append_if b msg errs) ↔ In msg' errs ∨ (b = true ∧ msg' = msg).
Proof.
  rewrite append_if_app, in_app_iff. destruct b; simpl; split; intros [?|H]; auto.
  - destruct H as [<-|[]]. auto.
  - destruct H as [_ ->]. auto.
  - destruct H.
  - by destruct H.
Qed.

Lemma append_if_nil (b : bool) msg (errs : list string) :
  EmailValidator.append_if b msg errs = [] → b = false ∧ errs = [].
Proof.
  rewrite append_if_app. intros [-> H]%app_eq_nil. by destruct b.
Qed.

Lemma diagnose_app l d (errs : list string) :
  EmailValidator.diagnose l d errs = errs ++ EmailValidator.diagnose l d [].
Proof.
  unfold EmailValidator.diagnose.
  repeat match goal with
         | |- context [if ?b then _ else _] => destruct b
         end; cbn [app]; rewrite <-?app_assoc, ?app_nil_r; done.
Qed.

Lemma nonempty_truthy s : s ≠ [] → truthy (VStr s) = true.
Proof. by destruct s. Qed.

(** A non-empty string that the pattern rejects once trimmed. *)
Lemma format_rejected s :
  s ≠ [] →
  re_match EmailValidator.EMAIL_REGEX (strip s) = None →
  EmailValidator._validate_format (VStr s)
  = (false, early_errors s ++ diagnosis (strip s),
     EmailValidator.append_if (bool_decide (strip s ≠ s))
       "Email contains leading or trailing whitespace" []).
Proof.
  intros Hs Hm. unfold EmailValidator._validate_format.
  rewrite nonempty_truthy by done. cbn [negb]. cbv zeta.
  rewrite pick_trimmed, Hm. unfold diagnosis, early_errors.
  destruct (negb (contains (lit "@") (strip s))); [done|].
  destruct (1 <? count (ord "@") (strip s))%nat eqn:Hcount.
  { cbn [EmailValidator.append_if]. by rewrite app_nil_r. }
  destruct (rsplit1 (ord "@") (strip s)) as [|l [|d [|? ?]]];
    rewrite ?app_nil_r; try done.
  by rewrite diagnose_app.
Qed.

(** A non-empty string that the pattern accepts once trimmed. *)
Lemma format_matched s m :
  s ≠ [] →
  re_match EmailValidator.EMAIL_REGEX (strip s) = Some m →
  EmailValidator._validate_format (VStr s)
  = let errs :=
      EmailValidator.append_if
        (EmailValidator.MAX_LOCAL_LENGTH <? length (group m "local"))%nat
        "Local part exceeds maximum length of 64 characters" (early_errors s) in
    ((length errs =? 0)%nat, errs,
     EmailValidator.append_if (contains (lit "+") (group m "local"))
       "Plus addressing detected - ensure your system supports this"
       (EmailValidator.append_if
          (startswith (group m "local") [dquote] && endswith (group m "local") [dquote])
          "Quoted local part detected - may not be supported by all mail servers"
          (EmailValidator.append_if (bool_decide (strip s ≠ s))
             "Email contains leading or trailing whitespace" []))).
Proof.
  intros Hs Hm. unfold EmailValidator._validate_format.
  rewrite nonempty_truthy by done. cbn [negb]. cbv zeta.
  by rewrite pick_trimmed, Hm.
Qed.

(** The errors of the early checks are errors of the format validator,
    and any of them makes the candidate invalid. *)
Lemma early_errors_kept s :
  s ≠ [] →
  ∃ more, format_errors (VStr s) = early_errors s ++ more
          ∧ (early_errors s ≠ [] → format_valid (VStr s) = false).
Proof.
  intros Hs. unfold format_errors, format_valid.
  destruct (re_match EmailValidator.EMAIL_REGEX (strip s)) as [m|] eqn:Hm.
  - rewrite (format_matched s m Hs Hm). cbv zeta. cbn [fst snd].
    rewrite append_if_app. eexists. split; [done|].
    intros Hne. destruct (early_errors s); done.
  - rewrite (format_rejected s Hs Hm). cbn [fst snd]. eauto.
Qed.

End FormatCases.

(** ** Verdicts of the format validator *)

Section FormatVerdicts.
Context {S : Type} `{!DNSServiceBase S}.
Implicit Types (self : EmailValidator S) (s t l d : str) (c : char).

Lemma rejected_result self e :
  format_valid e = false →
  EmailValidator.validate self e
  = ({| is_valid := false; email := e; errors := format_errors e;
        warnings := format_warnings e; mx_valid := None |}, self).
Proof. intros Hfv. rewrite validate_skips_mx by (by rewrite Hfv). by rewrite Hfv. Qed.

Lemma early_error_rejects self s msg :
  s ≠ [] → In msg (early_errors s) →
  let r := (EmailValidator.validate self (VStr s)).1 in
  is_valid r = false ∧ In msg (errors r).
Proof.
  intros Hs Hin. cbn zeta.
  destruct (early_errors_kept s Hs) as (more & Herrs & Hfv).
  rewrite rejected_result by (apply Hfv; by destruct (early_errors s)).
  cbn [fst is_valid errors]. split; [done|].
  rewrite Herrs. apply in_or_app. by left.
Qed.

Lemma strip_nonempty s : strip s ≠ [] → s ≠ [].
Proof. by intros Hs ->. Qed.

(** X1. A string of more than 254 characters is invalid and the first
    error says so; the other checks still run on it. *)
Theorem too_long_is_rejected self s :
  (254 < length s)%nat →
  let r := (EmailValidator.validate self (VStr s)).1 in
  is_valid r = false
  ∧ head (errors r) = Some "Email exceeds maximum length of 254 characters".
Proof.
  intros Hlen. cbn zeta.
  assert (Hs : s ≠ []) by (intros ->; simpl in Hlen; lia).
  destruct (early_errors_kept s Hs) as (more & Herrs & Hfv).
  assert (Hhead : ∃ rest, early_errors s
                  = "Email exceeds maximum length of 254 characters" :: rest).
  { unfold early_errors. cbv zeta.
    apply Nat.ltb_lt in Hlen as Hlt. unfold EmailValidator.MAX_EMAIL_LENGTH.
    rewrite Hlt. rewrite !append_if_app. cbn [app]. eauto. }
  destruct Hhead as [rest Hhead].
  rewrite rejected_result by (apply Hfv; by rewrite Hhead).
  cbn [fst is_valid errors]. by rewrite Herrs, Hhead.
Qed.

(** X2. A string with more than one ['@'] (once trimmed) is invalid and
    the errors say so, whatever else it contains: a quoted local part with
    an ['@'] in it is no exception. *)
Theorem several_ats_rejected self s :
  (1 < count (ord "@") (strip s))%nat →
  let r := (EmailValidator.validate self (VStr s)).1 in
  is_valid r = false ∧ In "Email contains multiple '@' symbols" (errors r).
Proof.
  intros Hcount. apply early_error_rejects.
  - apply strip_nonempty. intros Hnil. rewrite Hnil in Hcount.
    unfold count in Hcount. simpl in Hcount. lia.
  - unfold early_errors. cbv zeta. apply Nat.ltb_lt in Hcount. rewrite Hcount.
    rewrite !In_append_if. auto.
Qed.

(** X3. Consecutive dots, a space inside, or a dot right after ['@'] in
    the trimmed string make the candidate invalid, each with its own
    error. *)
Theorem forbidden_text_rejected self s sub msg :
  In (sub, msg)
    [(lit "..", "Email contains consecutive dots");
     (lit " ", "Email contains spaces");
     (lit "@.", "Domain cannot start with a dot")] →
  contains sub (strip s) = true →
  let r := (EmailValidator.validate self (VStr s)).1 in
  is_valid r = false ∧ In msg (errors r).
Proof.
  intros Hcase Hsub. apply early_error_rejects.
  - apply strip_nonempty. intros Hnil. rewrite Hnil in Hsub.
    destruct Hcase as [[= <- _]|[[= <- _]|[[= <- _]|[]]]]; done.
  - unfold early_errors. cbv zeta. rewrite !In_append_if.
    destruct Hcase as [[= <- <-]|[[= <- <-]|[[= <- <-]|[]]]]; rewrite Hsub; auto 10.
Qed.

(** X4. A non-empty string without ['@'] is invalid and its last error is
    "Email is missing '@' symbol". *)
Theorem missing_at_rejected self s :
  s ≠ [] →
  ¬ In (ord "@") s →
  let r := (EmailValidator.validate self (VStr s)).1 in
  is_valid r = false ∧ last (errors r) = Some "Email is missing '@' symbol".
Proof.
  intros Hs Hat. cbn zeta.
  assert (Hat' : ¬ In (ord "@") (strip s)) by (intros Hin; by apply Hat, strip_In).
  assert (Hm : re_match EmailValidator.EMAIL_REGEX (strip s) = None).
  { destruct (re_match _ _) as [m|] eqn:Hm; [|done].
    apply re_match_inv in Hm as [rest Hm].
    apply email_regex_groups in Hm as (l & dom & _ & _ & Heq & _).
    destruct Hat'. rewrite Heq. apply in_or_app. right. by left. }
  assert (Hfmt := format_rejected s Hs Hm).
  assert (Hdiag : diagnosis (strip s) = ["Email is missing '@' symbol"]).
  { unfold diagnosis. change (lit "@") with [ord "@"].
    rewrite contains_absent; [done|].
    apply Forall_forall. intros c Hc%list_elem_of_In ->. done. }
  rewrite Hdiag in Hfmt.
  rewrite rejected_result by (unfold format_valid; by rewrite Hfmt).
  unfold format_errors. rewrite Hfmt. cbn [fst snd is_valid errors].
  by rewrite last_snoc.
Qed.

End FormatVerdicts.

(** ** Accepted addresses *)

Section Accepted.
Implicit Types (s t l d : str) (c : char).

Lemma contains_single_iff c s : contains [c] s = true ↔ In c s.
Proof.
  induction s as [|a s IH]; [done|]. cbn [contains startswith].
  rewrite andb_true_r, orb_true_iff, IH, N.eqb_eq. done.
Qed.

Lemma lstrip_length s : (length (lstrip s) ≤ length s)%nat.
Proof.
  destruct (lstrip_suffix s) as [w Hw]. rewrite Hw at 2. rewrite length_app. lia.
Qed.

Lemma strip_length s : (length (strip s) ≤ length s)%nat.
Proof.
  unfold strip, rstrip. rewrite length_rev.
  etrans; [apply lstrip_length|]. rewrite length_rev. apply lstrip_length.
Qed.

(** What a match of the pattern on a trimmed string looks like: nothing
    is left over, and the group [local] is the text before the last
    ['@']. *)
Lemma trimmed_match s m :
  re_match EmailValidator.EMAIL_REGEX (strip s) = Some m →
  ∃ l pre tld,
    group m "local" = l
    ∧ strip s = l ++ ord "@" :: pre ++ ord "." :: tld
    ∧ l ≠ []
    ∧ Forall (λ c, alnum_hyphen c = true ∨ c = ord ".") pre
    ∧ Forall (λ c, alpha c = true) tld ∧ (2 ≤ length tld)%nat
    ∧ ¬ In (ord "@") (pre ++ ord "." :: tld).
Proof.
  intros Hm. apply re_match_inv in Hm as [rest Hm].
  apply email_regex_shape in Hm
    as (l & pre & tld & Hlocal & Hs & Hl & Hpre & Htld & Htld2 & Hat & Hrest).
  assert (rest = []) as ->.
  { destruct Hrest as [->| ->]; [done|].
    rewrite app_comm_cons, app_assoc in Hs. by apply strip_last in Hs. }
  rewrite app_nil_r in Hs.
  exists l, pre, tld. unfold group. rewrite Hlocal. done.
Qed.

(** X5. Whatever the format validator accepts has, once trimmed, the form
    [local@domain]: a local part of 1 to 64 characters, exactly one
    ['@'], and a domain of letters, digits, hyphens and dots that ends
    with a dot and a top-level domain of two or more letters.  It has at
    most 254 characters, no two dots in a row and no space inside. *)
Theorem accepted_shape s :
  format_valid (VStr s) = true →
  ∃ l pre tld,
    strip s = l ++ ord "@" :: pre ++ ord "." :: tld
    ∧ (1 ≤ length l ≤ 64)%nat
    ∧ count (ord "@") (strip s) = 1%nat
    ∧ Forall (λ c, alnum_hyphen c = true ∨ c = ord ".") pre
    ∧ Forall (λ c, alpha c = true) tld ∧ (2 ≤ length tld)%nat
    ∧ (length s ≤ 254)%nat
    ∧ contains (lit "..") (strip s) = false
    ∧ contains (lit " ") (strip s) = false.
Proof.
  intros Hfv.
  assert (Hs : s ≠ []) by (by intros ->).
  unfold format_valid in Hfv.
  destruct (re_match EmailValidator.EMAIL_REGEX (strip s)) as [m|] eqn:Hm;
    [|by rewrite (format_rejected s Hs Hm) in Hfv].
  rewrite (format_matched s m Hs Hm) in Hfv. cbv zeta in Hfv. cbn [fst] in Hfv.
  apply Nat.eqb_eq, length_zero_iff_nil, append_if_nil in Hfv as [Hlocal Hearly].
  unfold early_errors in Hearly. cbv zeta in Hearly.
  apply append_if_nil in Hearly as [Hatdot Hearly].
  apply append_if_nil in Hearly as [Hcount Hearly].
  apply append_if_nil in Hearly as [Hspace Hearly].
  apply append_if_nil in Hearly as [Hdots Hearly].
  apply append_if_nil in Hearly as [Hlen _].
  destruct (trimmed_match s m Hm) as (l & pre & tld & Hl & Heq & Hne & Hpre & Htld & Htld2 & Hat).
  rewrite Hl in Hlocal.
  apply Nat.ltb_ge in Hlocal, Hcount, Hlen.
  unfold EmailValidator.MAX_LOCAL_LENGTH in Hlocal.
  unfold EmailValidator.MAX_EMAIL_LENGTH in Hlen.
  exists l, pre, tld. repeat split; auto.
  - destruct l; [done|]. simpl. lia.
  - assert (1 ≤ count (ord "@") (strip s))%nat; [|lia].
    rewrite Heq, count_app, count_cons_eq. lia.
Qed.

(** X6. On a valid address the warning about plus addressing is there
    exactly when the text before the ['@'] contains a ['+']. *)
Theorem plus_warning_iff s l d :
  format_valid (VStr s) = true →
  strip s = l ++ ord "@" :: d →
  ¬ In (ord "@") d →
  In (ord "+") l
  ↔ In "Plus addressing detected - ensure your system supports this"
       (format_warnings (VStr s)).
Proof.
  intros Hfv Heq Hd.
  assert (Hs : s ≠ []) by (by intros ->).
  unfold format_valid in Hfv. unfold format_warnings.
  destruct (re_match EmailValidator.EMAIL_REGEX (strip s)) as [m|] eqn:Hm;
    [|by rewrite (format_rejected s Hs Hm) in Hfv].
  rewrite (format_matched s m Hs Hm). cbv zeta. cbn [snd].
  destruct (trimmed_match s m Hm) as (l' & pre & tld & Hl & Heq' & _ & _ & _ & _ & Hat).
  rewrite Heq in Heq'.
  destruct (last_split_unique _ _ _ _ _ Heq' Hd Hat) as [<- _].
  rewrite Hl, !In_append_if. change (lit "+") with [ord "+"].
  rewrite <-contains_single_iff. split; [auto|].
  intros [[[[]|[_ [=]]]|[_ [=]]]|[? _]]. done.
Qed.

End Accepted.

(** ** Whitespace around the address *)

Section Whitespace.
Implicit Types (s t l d : str) (c : char).

Lemma empty_pattern_rejects : re_match EmailValidator.EMAIL_REGEX [] = None.
Proof. reflexivity. Qed.

(** X7. On a non-empty string the warning about leading or trailing
    whitespace is there exactly when trimming changes the string, whether
    the address is valid or not. *)
Theorem whitespace_warning_iff s :
  s ≠ [] →
  In "Email contains leading or trailing whitespace" (format_warnings (VStr s))
  ↔ strip s ≠ s.
Proof.
  intros Hs. unfold format_warnings.
  destruct (re_match EmailValidator.EMAIL_REGEX (strip s)) as [m|] eqn:Hm.
  - rewrite (format_matched s m Hs Hm). cbv zeta. cbn [snd].
    rewrite !In_append_if, bool_decide_eq_true. split.
    + intros [[[[]|[? _]]|[_ [=]]]|[_ [=]]]. done.
    + auto.
  - rewrite (format_rejected s Hs Hm). cbn [snd].
    rewrite In_append_if, bool_decide_eq_true. split.
    + intros [[]|[? _]]. done.
    + auto.
Qed.

(** X8. For a string of at most 254 characters the verdict of the format
    validator is the verdict on the trimmed string, and so are the errors
    when something is left after trimming. *)
Theorem verdict_of_trimmed s :
  (length s ≤ 254)%nat →
  format_valid (VStr s) = format_valid (VStr (strip s))
  ∧ (strip s ≠ [] → format_errors (VStr s) = format_errors (VStr (strip s))).
Proof.
  intros Hlen.
  destruct (decide (strip s = [])) as [Hnil|Hne].
  - split; [|done]. rewrite Hnil.
    destruct (decide (s = [])) as [->|Hs]; [done|].
    unfold format_valid. rewrite (format_rejected s Hs); [done|].
    rewrite Hnil. apply empty_pattern_rejects.
  - assert (Hs : s ≠ []) by (by apply strip_nonempty).
    assert (Hearly : early_errors (strip s) = early_errors s).
    { unfold early_errors. cbv zeta. rewrite strip_idem.
      pose proof (strip_length s) as Hle.
      assert (Hl1 : (EmailValidator.MAX_EMAIL_LENGTH <? length s)%nat = false).
      { apply Nat.ltb_ge. unfold EmailValidator.MAX_EMAIL_LENGTH. lia. }
      assert (Hl2 : (EmailValidator.MAX_EMAIL_LENGTH <? length (strip s))%nat = false).
      { apply Nat.ltb_ge. unfold EmailValidator.MAX_EMAIL_LENGTH. lia. }
      by rewrite Hl1, Hl2. }
    unfold format_valid, format_errors.
    destruct (re_match EmailValidator.EMAIL_REGEX (strip s)) as [m|] eqn:Hm.
    + rewrite (format_matched s m Hs Hm).
      rewrite (format_matched (strip s) m Hne) by (by rewrite strip_idem).
      cbv zeta. cbn [fst snd]. by rewrite Hearly.
    + rewrite (format_rejected s Hs Hm).
      rewrite (format_rejected (strip s) Hne) by (by rewrite strip_idem).
      cbn [fst snd]. by rewrite Hearly, strip_idem.
Qed.

End Whitespace.

(** ** The diagnosis of rejected addresses *)

Section Diagnosis.
Context {S : Type} `{!DNSServiceBase S}.
Implicit Types (self : EmailValidator S) (s t l d : str) (c : char).

Lemma rpartition_last x (a b : str) :
  ¬ In x b → rpartition x (a ++ x :: b) = Some (a, b).
Proof.
  intros Hb. pose proof (rpartition_spec x (a ++ x :: b)) as Hspec.
  destruct (rpartition x (a ++ x :: b)) as [[a' b']|].
  - destruct Hspec as [Heq Hb'].
    by destruct (last_split_unique _ _ _ _ _ Heq Hb Hb') as [-> ->].
  - destruct Hspec. apply in_or_app. right. by left.
Qed.

Lemma not_In_Forall_ne x (u : str) : ¬ In x u → Forall (λ c, c ≠ x) u.
Proof. intros Hx. apply Forall_forall. intros c Hc%list_elem_of_In ->. done. Qed.

(** A trimmed string with exactly one ['@'] that the pattern rejects gets
    the diagnosis of its two sides. *)
Lemma one_at_diagnosis s l d :
  strip s = l ++ ord "@" :: d →
  ¬ In (ord "@") l → ¬ In (ord "@") d →
  diagnosis (strip s) = EmailValidator.diagnose l d [].
Proof.
  intros Heq Hl Hd. unfold diagnosis, rsplit1. rewrite Heq.
  change (lit "@") with [ord "@"].
  rewrite contains_skip by (by apply not_In_Forall_ne).
  rewrite contains_cons_eq. cbn [startswith orb negb].
  rewrite count_app, count_cons_eq, !count_absent by (by apply not_In_Forall_ne).
  cbn [Nat.add Nat.ltb Nat.leb]. by rewrite rpartition_last.
Qed.

(** X9. When nothing stands before the only ['@'], or nothing after it,
    the candidate is invalid and the errors name the empty side. *)
Theorem empty_side_diagnosed self s l d :
  strip s = l ++ ord "@" :: d →
  ¬ In (ord "@") l → ¬ In (ord "@") d →
  l = [] ∨ d = [] →
  let r := (EmailValidator.validate self (VStr s)).1 in
  is_valid r = false
  ∧ (l = [] → In "Local part (before @) is empty" (errors r))
  ∧ (d = [] → In "Domain part (after @) is empty" (errors r)).
Proof.
  intros Heq Hl Hd Hside. cbn zeta.
  assert (Hs : s ≠ []).
  { apply strip_nonempty. rewrite Heq. by destruct l. }
  assert (Hm : re_match EmailValidator.EMAIL_REGEX (strip s) = None).
  { destruct (re_match _ _) as [m|] eqn:Hm; [|done].
    destruct (trimmed_match s m Hm)
      as (l' & pre & tld & _ & Heq' & Hne & _ & _ & _ & Hat).
    rewrite Heq in Heq'.
    destruct (last_split_unique _ _ _ _ _ Heq' Hd Hat) as [-> ->].
    destruct Hside as [?|Hnil]; [done|]. by destruct pre. }
  assert (Hfmt := format_rejected s Hs Hm).
  rewrite (one_at_diagnosis s l d Heq Hl Hd) in Hfmt.
  rewrite rejected_result by (unfold format_valid; by rewrite Hfmt).
  unfold format_errors. rewrite Hfmt. cbn [fst snd is_valid errors].
  split; [done|]. split.
  - intros ->. apply in_or_app. right. unfold EmailValidator.diagnose.
    cbn [length Nat.eqb app].
    repeat match goal with
           | |- context [if ?b then _ else _] => destruct b
           end; cbn [app In]; auto.
  - intros ->. apply in_or_app. right. unfold EmailValidator.diagnose.
    cbn [length Nat.eqb]. apply in_or_app. right. by left.
Qed.

(** X10. A domain without any dot, after a well-formed single ['@'], is
    reported as missing its top-level domain. *)
Theorem missing_tld_diagnosed self s l d :
  strip s = l ++ ord "@" :: d →
  ¬ In (ord "@") l → ¬ In (ord "@") d →
  d ≠ [] → (length d ≤ 255)%nat →
  ¬ In (ord ".") d →
  let r := (EmailValidator.validate self (VStr s)).1 in
  is_valid r = false
  ∧ last (errors r) = Some "Domain is missing TLD (top-level domain)".
Proof.
  intros Heq Hl Hd Hne Hlen Hdot. cbn zeta.
  assert (Hs : s ≠ []).
  { apply strip_nonempty. rewrite Heq. by destruct l. }
  assert (Hm : re_match EmailValidator.EMAIL_REGEX (strip s) = None).
  { destruct (re_match _ _) as [m|] eqn:Hm; [|done].
    destruct (trimmed_match s m Hm)
      as (l' & pre & tld & _ & Heq' & _ & _ & _ & _ & Hat).
    rewrite Heq in Heq'.
    destruct (last_split_unique _ _ _ _ _ Heq' Hd Hat) as [-> ->].
    destruct Hdot. apply in_or_app. right. by left. }
  assert (Htld : re_match EmailValidator.TLD_REGEX d = None).
  { destruct (re_match EmailValidator.TLD_REGEX d) as [m|] eqn:Htld; [|done].
    apply re_match_inv in Htld as [rest Htld]. unfold EmailValidator.TLD_REGEX in Htld.
    apply seq_inv in Htld as (y1 & H1 & Htld).
    apply run_suffix in H1 as [w1 Hw1].
    apply seq_inv in Htld as (y2 & H2 & _).
    apply chr_inv in H2 as (c & Hy1 & Hc%N.eqb_eq & _). subst c.
    destruct Hdot. rewrite Hw1, Hy1. apply in_or_app. right. by left. }
  assert (Hfmt := format_rejected s Hs Hm).
  rewrite (one_at_diagnosis s l d Heq Hl Hd) in Hfmt.
  rewrite rejected_result by (unfold format_valid; by rewrite Hfmt).
  unfold format_errors. rewrite Hfmt. cbn [fst snd is_valid errors].
  split; [done|].
  assert (Hlast : ∃ errs, EmailValidator.diagnose l d []
                   = errs ++ ["Domain is missing TLD (top-level domain)"]).
  { unfold EmailValidator.diagnose. rewrite Htld.
    change (lit ".") with [ord "."].
    rewrite contains_absent by (by apply not_In_Forall_ne).
    assert (Hd0 : (length d =? 0)%nat = false) by (destruct d; done).
    assert (Hd255 : (EmailValidator.MAX_DOMAIN_LENGTH <? length d)%nat = false).
    { apply Nat.ltb_ge. unfold EmailValidator.MAX_DOMAIN_LENGTH. lia. }
    rewrite Hd0, Hd255. cbn [bool_decide negb]. eauto. }
  destruct Hlast as [errs ->]. by rewrite app_assoc, last_snoc.
Qed.

End Diagnosis.

(** ** The orchestrator and the resolver *)

Section Lookups.
Context {S : Type} `{!DNSServiceBase S}.
Implicit Types (self : EmailValidator S) (e : value) (s : str).

(** X11. The result is valid exactly when the format is valid and the MX
    lookup, if there was one, did not answer false. *)
Theorem is_valid_iff self e :
  let r := (EmailValidator.validate self e).1 in
  is_valid r = true ↔ format_valid e = true ∧ mx_valid r ≠ Some false.
Proof.
  cbn zeta. destruct (format_valid e && check_mx self) eqn:Hrun.
  - rewrite validate_runs_mx by done.
    apply andb_true_iff in Hrun as [Hfv _]. rewrite Hfv.
    destruct (EmailValidator._check_mx_record self e) as [[[[|]|] mx_errors] self'];
      cbn; split; try done; by intros [_ ?].
  - rewrite validate_skips_mx by done. cbn. split; [done|]. by intros [? _].
Qed.

(** X12. What a lookup makes of the result, for every resolver: an answer
    [True] leaves the result valid, an answer [False] makes it invalid and
    adds a warning but no error, and an exception leaves it valid, with
    [mx_valid] unknown and the text of the exception in the one error. *)
Theorem lookup_outcome self (svc : S) s :
  format_valid (VStr s) = true →
  check_mx self = true →
  dns_service self = Some svc →
  let r := (EmailValidator.validate self (VStr s)).1 in
  match (check_mx_record svc (lookup_domain s)).1 with
  | Returns true =>
      is_valid r = true ∧ mx_valid r = Some true ∧ errors r = []
      ∧ warnings r = format_warnings (VStr s)
  | Returns false =>
      is_valid r = false ∧ mx_valid r = Some false ∧ errors r = []
      ∧ warnings r = format_warnings (VStr s) ++ ["No MX record found for domain"]
  | Raises text =>
      is_valid r = true ∧ mx_valid r = None
      ∧ errors r = ["DNS lookup failed: " +:+ text]
      ∧ warnings r = format_warnings (VStr s)
  end.
Proof.
  intros Hfv Hflag Hsvc. cbn zeta.
  rewrite validate_runs_mx by (by rewrite Hfv, Hflag).
  unfold EmailValidator._check_mx_record. rewrite Hsvc.
  rewrite (format_valid_no_errors _ Hfv). fold (lookup_domain s).
  by destruct (check_mx_record svc (lookup_domain s)) as [[[|]|text] svc'].
Qed.

(** X13. A batch is validated piece by piece: the results of [L1 ++ L2]
    are those of [L1] followed by those of [L2] on the validator that [L1]
    left behind; and there are always as many results as candidates. *)
Theorem validate_batch_app self (L1 L2 : list value) :
  EmailValidator.validate_batch self (L1 ++ L2)
  = (let '(r1, self1) := EmailValidator.validate_batch self L1 in
     let '(r2, self2) := EmailValidator.validate_batch self1 L2 in
     (r1 ++ r2, self2))
  ∧ length (EmailValidator.validate_batch self (L1 ++ L2)).1 = length (L1 ++ L2).
Proof.
  split.
  - revert self. induction L1 as [|e L1 IH]; intros self; simpl.
    + by destruct (EmailValidator.validate_batch self L2).
    + destruct (EmailValidator.validate self e) as [r self1]. rewrite IH.
      destruct (EmailValidator.validate_batch self1 L1) as [r1 self2].
      by destruct (EmailValidator.validate_batch self2 L2).
  - generalize (L1 ++ L2) as L. intros L. revert self.
    induction L as [|e L IH]; intros self; simpl; [done|].
    destruct (EmailValidator.validate self e) as [r self1].
    specialize (IH self1).
    destruct (EmailValidator.validate_batch self1 L) as [rs self2]. simpl in *.
    by rewrite IH.
Qed.

(** X14. A validator that does not check MX records never touches its
    resolver: a batch leaves the validator as it was, and its results are
    those of [validate] on each candidate. *)
Theorem batch_without_mx self (L : list value) :
  check_mx self = false →
  EmailValidator.validate_batch self L
  = (map (λ e, (EmailValidator.validate self e).1) L, self).
Proof.
  intros Hflag. induction L as [|e L IH]; [done|]. simpl.
  rewrite (validate_skips_mx self e) by (by rewrite Hflag, andb_false_r).
  by rewrite IH.
Qed.

End Lookups.

(** ** The stand-in resolver *)

Section Mock.
Implicit Types (svc : MockDNSService) (d : str) (b : bool).

(** X15. [set_response] then a lookup: the domain that was set answers
    the value that was set, every other domain answers as before, and the
    history is not touched. *)
Theorem set_response_lookup svc d b d' :
  (MockDNSService.check_mx_record (MockDNSService.set_response svc d b) d').1
  = (if decide (d' = d) then Returns b
     else (MockDNSService.check_mx_record svc d').1)
  ∧ call_history (MockDNSService.set_response svc d b) = call_history svc.
Proof.
  split; [|done]. unfold MockDNSService.check_mx_record, MockDNSService.set_response.
  cbn [fst responses]. case_decide as Hd.
  - subst d'. by rewrite lookup_insert_eq.
  - by rewrite lookup_insert_ne.
Qed.

(** X16. The two lookups of the stand-in agree: [get_mx_records] answers
    the one record [(10, "mail." + domain)] when [check_mx_record] answers
    true and no record when it answers false; a domain that is not in the
    table answers false. *)
Theorem mock_lookups_agree svc d :
  ∃ b,
    (MockDNSService.check_mx_record svc d).1 = Returns b
    ∧ (MockDNSService.get_mx_records svc d).1
      = Returns (if b then [(10%Z, lit "mail." ++ d)] else [])
    ∧ (responses svc !! d = None → b = false).
Proof.
  exists (default false (responses svc !! d)).
  unfold MockDNSService.check_mx_record, MockDNSService.get_mx_records.
  cbn [fst responses]. split; [done|]. split.
  - by destruct (default false (responses svc !! d)).
  - by intros ->.
Qed.

(** X17. A lookup or a reset of the history never changes what the
    stand-in answers; a lookup adds its entry at the end of the history
    and a reset empties it. *)
Theorem mock_history svc d d' :
  let after_check := (MockDNSService.check_mx_record svc d).2 in
  let after_get := (MockDNSService.get_mx_records svc d).2 in
  let after_reset := MockDNSService.reset_history svc in
  Forall (λ svc', (MockDNSService.check_mx_record svc' d').1
                  = (MockDNSService.check_mx_record svc d').1)
    [after_check; after_get; after_reset]
  ∧ call_history after_check = call_history svc ++ [("check_mx_record", d)]
  ∧ call_history after_get = call_history svc ++ [("get_mx_records", d)]
  ∧ call_history after_reset = [].
Proof.
  cbn zeta. unfold MockDNSService.get_mx_records.
  destruct (default false _); split; try done; repeat constructor.
Qed.

(** X18. On the stand-in a batch with MX checking is logged in full: the
    history grows by one lookup for each candidate that passes the format
    validator, in the order of the batch, with the domain as it stands in
    the candidate; candidates that fail the format validator cause no
    lookup, and the table is not changed. *)
Theorem batch_lookups_logged (self : EmailValidator MockDNSService) svc
    (L : list value) :
  check_mx self = true →
  dns_service self = Some svc →
  (EmailValidator.validate_batch self L).2
  = {| check_mx := true;
       dns_service := Some {| responses := responses svc;
                              call_history := call_history svc ++ lookups L |} |}.
Proof.
  revert self svc. induction L as [|e L IH]; intros self svc Hflag Hsvc.
  - simpl. rewrite app_nil_r. destruct self as [? ?], svc as [? ?]. simpl in *.
    by subst.
  - cbn [EmailValidator.validate_batch].
    destruct (format_valid e) eqn:Hfv.
    + rewrite validate_runs_mx by (by rewrite Hfv, Hflag).
      assert (Hstr : ∃ s, e = VStr s).
      { unfold format_valid, EmailValidator._validate_format in Hfv.
        destruct (negb (truthy e)); [done|]. destruct e; try done. eauto. }
      destruct Hstr as [s ->].
      unfold EmailValidator._check_mx_record. rewrite Hsvc. fold (lookup_domain s).
      cbn [check_mx_record MockDNSService_base MockDNSService.check_mx_record].
      cbn -[format_errors format_warnings lookup_domain lookups].
      match goal with
      | |- context [EmailValidator.validate_batch ?v L] =>
          pose proof (IH v _ Hflag eq_refl) as IHv;
          destruct (EmailValidator.validate_batch v L) as [rs self']
      end.
      cbn [snd responses call_history] in IHv |- *. rewrite IHv.
      unfold lookups at 2. cbn [flat_map].
      rewrite Hfv. fold (lookups L). by rewrite <-app_assoc.
    + rewrite rejected_result by done.
      pose proof (IH self svc Hflag Hsvc) as IHv.
      destruct (EmailValidator.validate_batch self L) as [rs self'].
      cbn [snd] in IHv |- *. rewrite IHv. unfold lookups at 2. cbn [flat_map].
      assert (Hnone : match e with
                      | VStr s => if format_valid e
                                  then [("check_mx_record", lookup_domain s)] else []
                      | _ => []
                      end = []).
      { destruct e; try done. by rewrite Hfv. }
      by rewrite Hnone.
Qed.

End Mock.

(** ** The result as a dictionary *)

Section Dictionary.
Implicit Types (r : ValidationResult).

Lemma lit_inj (a b : string) : lit a = lit b → a = b.
Proof.
  unfold lit. intros Heq.
  rewrite <-(string_of_list_ascii_of_string a), <-(string_of_list_ascii_of_string b).
  f_equal. revert Heq.
  generalize (list_ascii_of_string a) (list_ascii_of_string b).
  induction l as [|x l IH]; intros [|y l'] Heq; try done.
  injection Heq as Hxy Heq. f_equal; [|by apply IH].
  unfold ord in Hxy. by rewrite <-(ascii_N_embedding x), <-(ascii_N_embedding y), Hxy.
Qed.

Lemma messages_inj (l1 l2 : list string) :
  (λ msg, VStr (lit msg)) <$> l1 = (λ msg, VStr (lit msg)) <$> l2 → l1 = l2.
Proof.
  revert l2. induction l1 as [|a l1 IH]; intros [|b l2] Heq; try done.
  injection Heq as Hab Heq. f_equal; [by apply lit_inj|by apply IH].
Qed.

Lemma to_dict_lookups r :
  ValidationResult.to_dict r !! "is_valid" = Some (VBool (is_valid r))
  ∧ ValidationResult.to_dict r !! "email" = Some (email r)
  ∧ ValidationResult.to_dict r !! "errors"
    = Some (VList ((λ msg, VStr (lit msg)) <$> errors r))
  ∧ ValidationResult.to_dict r !! "warnings"
    = Some (VList ((λ msg, VStr (lit msg)) <$> warnings r))
  ∧ ValidationResult.to_dict r !! "mx_valid"
    = Some (ValidationResult.optional_bool (mx_valid r)).
Proof.
  unfold ValidationResult.to_dict.
  repeat split;
    repeat (first [rewrite lookup_insert_eq; reflexivity
                  | rewrite lookup_insert_ne by done
                  | rewrite lookup_singleton_eq; reflexivity]).
Qed.

(** X19. [to_dict] loses nothing: it has the five fields under their
    names, and two results with the same dictionary are the same
    result. *)
Theorem to_dict_faithful r1 r2 :
  ValidationResult.to_dict r1 = ValidationResult.to_dict r2 →
  r1 = r2
  ∧ dom (ValidationResult.to_dict r1)
    = ({["is_valid"; "email"; "errors"; "warnings"; "mx_valid"]} : gset string).
Proof.
  intros Heq. split.
  - destruct (to_dict_lookups r1) as (H1 & H2 & H3 & H4 & H5).
    destruct (to_dict_lookups r2) as (G1 & G2 & G3 & G4 & G5).
    rewrite Heq in H1, H2, H3, H4, H5.
    rewrite G1 in H1. rewrite G2 in H2. rewrite G3 in H3. rewrite G4 in H4.
    rewrite G5 in H5.
    destruct r1 as [v1 e1 er1 w1 m1], r2 as [v2 e2 er2 w2 m2]. cbn in *.
    injection H1 as ->. injection H2 as ->.
    injection H3 as ->%messages_inj. injection H4 as ->%messages_inj.
    assert (m2 = m1) as ->; [|done].
    by destruct m1 as [[|]|], m2 as [[|]|].
  - unfold ValidationResult.to_dict. rewrite !dom_insert_L, dom_singleton_L.
    set_solver.
Qed.

End Dictionary.

(** ** The HTTP handlers *)

Section Handlers.
Context {S : Type} `{!DNSServiceBase S}.
Implicit Types (self : EmailValidator S) (req : app.request).

Lemma sum_of_ones (A : Type) (l : list A) (acc : Z) :
  foldl Z.add acc ((λ _, 1%Z) <$> l) = (acc + Z.of_nat (length l))%Z.
Proof.
  revert acc. induction l as [|a l IH]; intros acc; simpl; [lia|].
  rewrite IH. lia.
Qed.

(** X20. The batch endpoint, on a JSON object whose [emails] is a
    non-empty array, answers 200 with one dictionary per candidate in the
    order of the array; [total] is the length of the array, [valid_count]
    the number of valid results, and the two counts are not negative and
    add up to [total]. *)
Theorem batch_endpoint_counts self req data (emails : list value) :
  app.is_json req = true →
  app.get_json req = Some data →
  data !! lit "emails" = Some (VList emails) →
  emails ≠ [] →
  let results := (EmailValidator.validate_batch self emails).1 in
  ∃ valid_count invalid_count,
    (app.validate_batch self req).1
    = (app.BatchBody (ValidationResult.to_dict <$> results)
         (Z.of_nat (length emails)) valid_count invalid_count, 200%Z)
    ∧ valid_count = Z.of_nat (length (filter (λ r, is_valid r = true) results))
    ∧ (0 ≤ valid_count)%Z ∧ (0 ≤ invalid_count)%Z
    ∧ (valid_count + invalid_count = Z.of_nat (length emails))%Z.
Proof.
  intros Hjson Hdata Hemails Hne. cbn zeta.
  unfold app.validate_batch. rewrite Hjson, Hdata, Hemails. cbn [negb].
  assert (Hlen0 : (length emails =? 0)%nat = false) by (by destruct emails).
  rewrite Hlen0.
  pose proof (proj2 (validate_batch_app self [] emails)) as Hlen. cbn [app] in Hlen.
  destruct (EmailValidator.validate_batch self emails) as [results self'].
  cbn [fst] in *. rewrite sum_of_ones, Hlen.
  eexists _, _. split; [reflexivity|].
  pose proof (length_filter (λ r, is_valid r = true) results) as Hle.
  repeat split; lia.
Qed.

(** X21. A request that an endpoint answers with an error status never
    reaches the validator: it is left as it was, so no lookup was made. *)
Theorem error_status_leaves_validator self req :
  ((app.validate_email self req).1.2 ≠ 200%Z → (app.validate_email self req).2 = self)
  ∧ ((app.validate_batch self req).1.2 ≠ 200%Z → (app.validate_batch self req).2 = self)
  ∧ ((app.quick_check self req).1.2 ≠ 200%Z → (app.quick_check self req).2 = self).
Proof.
  unfold app.validate_email, app.validate_batch, app.quick_check.
  repeat split.
  - destruct (app.is_json req); [|done]. cbn [negb].
    destruct (app.get_json req) as [data|]; [|done].
    destruct (data !! lit "email") as [[| | | | |]|]; try done;
      by destruct (EmailValidator.validate self _).
  - destruct (app.is_json req); [|done]. cbn [negb].
    destruct (app.get_json req) as [data|]; [|done].
    destruct (data !! lit "emails") as [[| | | |l|]|]; try done.
    destruct (length l =? 0)%nat; [done|].
    by destruct (EmailValidator.validate_batch self l).
  - destruct (app.args req !! lit "email") as [s|]; [|done].
    by destruct (EmailValidator.is_valid self (VStr s)).
Qed.

(** X22. The quick check and the full endpoint agree: for the same string
    and the same validator, the [is_valid] of [/quick-check] is the
    [is_valid] entry of the dictionary that [/validate] answers, both
    answer 200 and both leave the validator in the same state. *)
Theorem quick_check_agrees self req_q req_v data (s : str) :
  app.args req_q !! lit "email" = Some s →
  app.is_json req_v = true →
  app.get_json req_v = Some data →
  data !! lit "email" = Some (VStr s) →
  ∃ b d,
    (app.quick_check self req_q).1 = (app.QuickBody s b, 200%Z)
    ∧ (app.validate_email self req_v).1 = (app.ResultBody d, 200%Z)
    ∧ d !! "is_valid" = Some (VBool b)
    ∧ d !! "email" = Some (VStr s)
    ∧ (app.quick_check self req_q).2 = (app.validate_email self req_v).2.
Proof.
  intros Hq Hjson Hdata Hemail.
  unfold app.quick_check, app.validate_email, EmailValidator.is_valid.
  rewrite Hq, Hjson, Hdata, Hemail. cbn [negb].
  pose proof (validate_email self (VStr s)) as Hstored.
  destruct (EmailValidator.validate self (VStr s)) as [r self']. cbn [fst] in Hstored.
  destruct (to_dict_lookups r) as (H1 & H2 & _).
  exists (is_valid r), (ValidationResult.to_dict r).
  split; [done|]. split; [done|]. split; [exact H1|].
  split; [by rewrite H2, Hstored|done].
Qed.

End Handlers.

(** ** Conventional addresses *)

Section Conventional.
Implicit Types (s w a b l d tld : str) (c : char) (r : regex).

Lemma accepts_chr p c : p c = true → accepts (Chr p) [c].
Proof. intros Hp rest g. by apply chr_intro. Qed.

Lemma accepts_seq r1 r2 w1 w2 :
  accepts r1 w1 → accepts r2 w2 → accepts (Seq r1 r2) (w1 ++ w2).
Proof.
  intros H1 H2 rest g. rewrite <-app_assoc.
  apply (seq_intro _ _ _ _ (w2 ++ rest, g)); [apply H1|apply H2].
Qed.

Lemma accepts_rep_chr lo hi p w :
  Forall (λ c, p c = true) w → (lo ≤ length w)%nat →
  (∀ h, hi = Some h → (length w ≤ h)%nat) →
  accepts (Rep lo hi (Chr p)) w.
Proof. intros Hw Hlo Hhi rest g. by apply rep_chr_intro. Qed.

(** A greedy repetition can go through any list of non-empty words that
    its body matches. *)
Lemma accepts_rep lo hi r (ws : list str) :
  Forall (λ w, w ≠ [] ∧ accepts r w) ws →
  (lo ≤ length ws)%nat →
  (∀ h, hi = Some h → (length ws ≤ h)%nat) →
  accepts (Rep lo hi r) (concat ws).
Proof.
  intros Hws Hlo Hhi rest g.
  change (run (Rep lo hi r) (concat ws ++ rest) g)
    with (rounds (run r) lo hi (length (concat ws ++ rest)) 0 (concat ws ++ rest) g).
  revert Hlo Hhi.
  change (lo ≤ length ws)%nat with (lo ≤ 0 + length ws)%nat.
  change (∀ h, hi = Some h → (length ws ≤ h)%nat)
    with (∀ h, hi = Some h → (0 + length ws ≤ h)%nat).
  generalize 0%nat as n.
  induction Hws as [|w ws [Hw Hacc] Hws IH]; intros n Hlo Hhi.
  - apply rounds_stop. simpl in Hlo. lia.
  - cbn [concat]. rewrite <-app_assoc.
    apply (rounds_more _ _ _ _ _ _ _ (concat ws ++ rest) g).
    + destruct hi as [h|]; [|done]. simpl. apply Nat.ltb_lt.
      specialize (Hhi h eq_refl). simpl in Hhi. lia.
    + apply Hacc.
    + rewrite (length_app w). destruct w; [done|]. simpl. lia.
    + done.
    + apply IH; simpl in *; [lia|]. intros h Hh. specialize (Hhi h Hh). lia.
Qed.

Lemma atext_codes c :
  atext c = true → (33 ≤ c ≤ 126 ∧ c ≠ 34 ∧ c ≠ 46 ∧ c ≠ 64)%N.
Proof.
  unfold atext. intros [Hc%alnum_codes|Hc]%orb_true_iff; [lia|].
  unfold one_of in Hc. apply existsb_exists in Hc as (x & Hin & Hx%N.eqb_eq).
  subst x. vm_compute in Hin.
  repeat (destruct Hin as [<-|Hin]; [lia|]). done.
Qed.

Lemma alnum_hyphen_codes c :
  alnum_hyphen c = true → (33 ≤ c ≤ 126 ∧ c ≠ 34 ∧ c ≠ 46 ∧ c ≠ 64)%N.
Proof.
  unfold alnum_hyphen. intros [Hc%alnum_codes|Hc%N.eqb_eq]%orb_true_iff; [lia|].
  subst c. change (ord "-") with 45%N. lia.
Qed.

Lemma atom_ordinary a : atom a → a ≠ [] ∧ Forall ordinary a.
Proof.
  intros [Hne Ha]. split; [done|]. eapply Forall_impl; [exact Ha|]. apply atext_codes.
Qed.

Lemma label_ordinary b : label b → b ≠ [] ∧ Forall ordinary b.
Proof.
  intros [(c & -> & Hc)|(c0 & mid & c1 & -> & Hc0 & Hmid & _ & Hc1)].
  - split; [done|]. apply Forall_singleton.
    by apply alnum_hyphen_codes, alnum_alnum_hyphen.
  - split; [done|]. apply Forall_cons. split.
    { by apply alnum_hyphen_codes, alnum_alnum_hyphen. }
    apply Forall_app. split.
    { eapply Forall_impl; [exact Hmid|]. apply alnum_hyphen_codes. }
    apply Forall_singleton. by apply alnum_hyphen_codes, alnum_alnum_hyphen.
Qed.

Lemma tld_ordinary tld : Forall (λ c, alpha c = true) tld → Forall ordinary tld.
Proof.
  intros Ht. eapply Forall_impl; [exact Ht|].
  intros c Hc. by apply alnum_hyphen_codes, alnum_alnum_hyphen, alpha_alnum.
Qed.

Lemma ordinary_ne x w :
  (x = 32 ∨ x = 34 ∨ x = 46 ∨ x = 64)%N → Forall ordinary w → Forall (λ c, c ≠ x) w.
Proof.
  intros Hx Hw. eapply Forall_impl; [exact Hw|]. unfold ordinary. intros c Hc. lia.
Qed.

Lemma ordinary_not_space c : ordinary c → isspace c = false.
Proof.
  unfold ordinary, isspace. intros Hc.
  repeat (apply orb_false_iff; split);
    rewrite ?andb_false_iff, ?N.leb_gt, ?N.eqb_neq; lia.
Qed.

(** The characters of a dotted local part and of a labelled domain are
    ordinary or dots. *)
Lemma dotted_chars a0 atoms :
  atom a0 → Forall atom atoms →
  Forall (λ c, ordinary c ∨ c = ord ".") (dotted a0 atoms).
Proof.
  intros Ha0 Hatoms. unfold dotted. apply Forall_app. split.
  - apply atom_ordinary in Ha0 as [_ Ha0]. eapply Forall_impl; [exact Ha0|]. auto.
  - induction Hatoms as [|a atoms Ha _ IH]; [constructor|]. cbn [map concat].
    apply Forall_app. split; [|done]. apply Forall_cons. split; [auto|].
    apply atom_ordinary in Ha as [_ Ha]. eapply Forall_impl; [exact Ha|]. auto.
Qed.

Lemma labelled_chars labels tld :
  Forall label labels → Forall (λ c, alpha c = true) tld →
  Forall (λ c, ordinary c ∨ c = ord ".") (labelled labels tld).
Proof.
  intros Hlabels Htld. unfold labelled. apply Forall_app. split.
  - induction Hlabels as [|b labels Hb _ IH]; [constructor|]. cbn [map concat].
    apply Forall_app. split; [|done]. apply Forall_app. split.
    + apply label_ordinary in Hb as [_ Hb]. eapply Forall_impl; [exact Hb|]. auto.
    + apply Forall_singleton. auto.
  - apply tld_ordinary in Htld. eapply Forall_impl; [exact Htld|]. auto.
Qed.

Lemma chars_ne x w :
  (x = 32 ∨ x = 34 ∨ x = 64)%N →
  Forall (λ c, ordinary c ∨ c = ord ".") w → Forall (λ c, c ≠ x) w.
Proof.
  intros Hx Hw. eapply Forall_impl; [exact Hw|]. unfold ordinary.
  change (ord ".") with 46%N. intros c Hc. lia.
Qed.

(** No two dots in a row: a dot-free word, or a dot and a non-empty
    dot-free word, can be taken off the front of a search for [".."]. *)
Lemma dots_skip_atom a s :
  a ≠ [] → Forall ordinary a →
  contains [ord "."; ord "."] (ord "." :: a ++ s) = contains [ord "."; ord "."] s.
Proof.
  intros Hne Ha. rewrite contains_cons_eq.
  assert (Hdot : Forall (λ c, c ≠ ord ".") a).
  { apply ordinary_ne; [|done]. change (ord ".") with 46%N. lia. }
  rewrite contains_skip by done.
  destruct Hdot as [|c a' Hc _]; [done|].
  by rewrite <-app_comm_cons, startswith_cons_ne.
Qed.

Lemma dots_skip_atoms atoms s :
  Forall atom atoms →
  contains [ord "."; ord "."] (concat (map (cons (ord ".")) atoms) ++ s)
  = contains [ord "."; ord "."] s.
Proof.
  induction 1 as [|a atoms Ha _ IH]; [done|]. cbn [map concat].
  apply atom_ordinary in Ha as [Hne Ha].
  by rewrite <-app_assoc, <-app_comm_cons, dots_skip_atom.
Qed.

Lemma dots_skip_labels labels s :
  Forall label labels →
  startswith s [ord "."] = false →
  contains [ord "."; ord "."] (concat (map (λ b, b ++ [ord "."]) labels) ++ s)
  = contains [ord "."; ord "."] s
  ∧ startswith (concat (map (λ b, b ++ [ord "."]) labels) ++ s) [ord "."] = false.
Proof.
  intros Hlabels Hs. induction Hlabels as [|b labels Hb _ [IH1 IH2]]; [done|].
  cbn [map concat]. apply label_ordinary in Hb as [Hne Hb].
  assert (Hdot : Forall (λ c, c ≠ ord ".") b).
  { apply ordinary_ne; [|done]. change (ord ".") with 46%N. lia. }
  rewrite <-!app_assoc. split.
  - rewrite contains_skip by done. cbn [app]. rewrite contains_cons_eq.
    by rewrite IH2, IH1.
  - destruct Hdot as [|c b' Hc _]; [done|].
    by rewrite <-app_comm_cons, startswith_cons_ne.
Qed.

Section Address.
Variables (a0 : str) (atoms labels : list str) (tld : str).
Hypothesis Ha0 : atom a0.
Hypothesis Hatoms : Forall atom atoms.
Hypothesis Hlabels0 : labels ≠ [].
Hypothesis Hlabels : Forall label labels.
Hypothesis Htld : Forall (λ c, alpha c = true) tld.
Hypothesis Htld2 : (2 ≤ length tld)%nat.

Let local : str := dotted a0 atoms.
Let domain : str := labelled labels tld.
Let address : str := local ++ ord "@" :: domain.

Lemma tld_no_lead_dot : startswith tld [ord "."] = false.
Proof.
  pose proof Htld as Ht. pose proof Htld2 as Hlen.
  destruct Ht as [|c t' Hc _]; [done|].
  apply startswith_cons_ne. apply alpha_alnum, alnum_codes in Hc.
  change (ord ".") with 46%N. lia.
Qed.

Lemma conventional_no_dots : contains (lit "..") address = false.
Proof.
  change (lit "..") with [ord "."; ord "."]. unfold address, local, dotted.
  pose proof Ha0 as [Hne Ha]%atom_ordinary.
  rewrite <-app_assoc.
  rewrite contains_skip
    by (apply ordinary_ne; [change (ord ".") with 46%N; lia|done]).
  rewrite dots_skip_atoms by done.
  rewrite contains_cons_ne by done.
  unfold domain, labelled.
  destruct (dots_skip_labels labels tld Hlabels tld_no_lead_dot) as [-> _].
  apply contains_absent.
  apply ordinary_ne; [change (ord ".") with 46%N; lia|by apply tld_ordinary].
Qed.

Lemma conventional_chars_ne x :
  (x = 32 ∨ x = 34)%N → Forall (λ c, c ≠ x) address.
Proof.
  intros Hx. unfold address. apply Forall_app. split.
  - apply chars_ne; [lia|]. by apply dotted_chars.
  - apply Forall_cons. split; [change (ord "@") with 64%N; lia|].
    apply chars_ne; [lia|]. by apply labelled_chars.
Qed.

Lemma conventional_no_space : contains (lit " ") address = false.
Proof.
  change (lit " ") with [32]%N. apply contains_absent.
  apply conventional_chars_ne. lia.
Qed.

Lemma local_no_at : Forall (λ c, c ≠ ord "@") local.
Proof.
  apply chars_ne; [change (ord "@") with 64%N; lia|]. by apply dotted_chars.
Qed.

Lemma domain_no_at : Forall (λ c, c ≠ ord "@") domain.
Proof.
  apply chars_ne; [change (ord "@") with 64%N; lia|]. by apply labelled_chars.
Qed.

Lemma conventional_one_at : count (ord "@") address = 1%nat.
Proof.
  unfold address.
  rewrite count_app, count_absent by apply local_no_at.
  by rewrite count_cons_eq, count_absent by apply domain_no_at.
Qed.

Lemma domain_no_lead_dot : startswith domain [ord "."] = false.
Proof.
  unfold domain, labelled.
  by destruct (dots_skip_labels labels tld Hlabels tld_no_lead_dot) as [_ ->].
Qed.

Lemma conventional_no_at_dot : contains (lit "@.") address = false.
Proof.
  change (lit "@.") with [ord "@"; ord "."]. unfold address.
  rewrite contains_skip by apply local_no_at.
  rewrite contains_cons_eq, domain_no_lead_dot.
  by rewrite contains_absent by apply domain_no_at.
Qed.

Lemma conventional_strip : strip address = address.
Proof.
  unfold strip.
  assert (Hfirst : lstrip address = address).
  { unfold address, local, dotted. pose proof Ha0 as [Hne Ha]%atom_ordinary.
    destruct Ha as [|c a Hc _]; [done|].
    rewrite <-!app_comm_cons. apply lstrip_cons. by apply ordinary_not_space. }
  rewrite Hfirst.
  pose proof Htld as Ht. pose proof Htld2 as Hlen. revert Ht Hlen.
  unfold address, domain, labelled. generalize tld as u.
  intros u. destruct u as [|c u _] using rev_ind; intros Ht Hlen;
    [simpl in Hlen; lia|].
  apply Forall_app in Ht as [_ Hc]. apply Forall_cons in Hc as [Hc _].
  rewrite !app_assoc, app_comm_cons, !app_assoc.
  apply rstrip_snoc. by apply alnum_not_space, alpha_alnum.
Qed.

Lemma label_dot_accepts b : label b → accepts EmailValidator.label_dot (b ++ [ord "."]).
Proof.
  unfold EmailValidator.label_dot.
  intros [(c & -> & Hc)|(c0 & mid & c1 & -> & Hc0 & Hmid & Hlen & Hc1)].
  - apply (accepts_seq _ _ [c] [ord "."]); [by apply accepts_chr|].
    apply (accepts_seq _ _ [] [ord "."]).
    + intros rest g. apply rep_intro_none.
    + apply accepts_chr, N.eqb_refl.
  - change (c0 :: mid ++ [c1]) with ([c0] ++ mid ++ [c1]). rewrite <-!app_assoc.
    apply accepts_seq; [by apply accepts_chr|].
    rewrite app_assoc. apply accepts_seq; [|apply accepts_chr, N.eqb_refl].
    intros rest g. apply rep_intro_once; [lia|done| |].
    + rewrite <-app_assoc.
      apply (seq_intro _ _ _ _ ([c1] ++ rest, g)).
      * by apply (rep_chr_intro 0 (Some 61%nat) alnum_hyphen);
          [|lia|intros h [= <-]].
      * by apply chr_intro.
    + rewrite !length_app. simpl. lia.
Qed.

(** The pattern of the validator accepts the address, with its local
    part in the group. *)
Lemma conventional_match :
  ∃ m, re_match EmailValidator.EMAIL_REGEX address = Some m ∧ group m "local" = local.
Proof.
  assert (Hlocal : accepts EmailValidator.unquoted local).
  { unfold EmailValidator.unquoted, local, dotted. apply accepts_seq.
    - destruct Ha0 as [Hne Ha]. apply accepts_rep_chr; [done| |done].
      destruct a0; [done|simpl; lia].
    - apply accepts_rep; [|lia|done].
      apply Forall_fmap. eapply Forall_impl; [exact Hatoms|].
      intros a [Hne Ha]. split; [done|].
      change (ord "." :: a) with ([ord "."] ++ a).
      apply accepts_seq; [apply accepts_chr, N.eqb_refl|].
      apply accepts_rep_chr; [done| |done]. destruct a; [done|simpl; lia]. }
  assert (Hdomain : accepts (Seq (plus EmailValidator.label_dot) (Rep 2 None (Chr alpha)))
                      domain).
  { unfold domain, labelled. apply accepts_seq.
    - apply accepts_rep; [| |done].
      + apply Forall_fmap. eapply Forall_impl; [exact Hlabels|].
        intros b Hb. split; [by destruct b|by apply label_dot_accepts].
      + rewrite length_map. pose proof Hlabels0. destruct labels; [done|simpl; lia].
    - by apply accepts_rep_chr. }
  assert (Haccepts : ∃ m, In ([], m) (run EmailValidator.EMAIL_REGEX address ∅)).
  { unfold EmailValidator.EMAIL_REGEX, address. eexists.
    eapply seq_intro.
    { apply (group_intro _ _ _ _ (ord "@" :: domain, ∅)).
      apply in_or_app. right. apply Hlocal. }
    cbn [fst snd]. eapply seq_intro.
    { apply chr_intro. apply N.eqb_refl. }
    cbn [fst snd]. eapply seq_intro.
    { eapply (group_intro _ _ _ _ ([], _)).
      rewrite <-(app_nil_r domain) at 1. apply Hdomain. }
    cbn [fst snd]. by left. }
  destruct Haccepts as [m0 Hm0].
  destruct (re_match_intro _ _ _ Hm0) as [m Hm]. exists m. split; [done|].
  apply re_match_inv in Hm as [rest Hm].
  apply email_regex_groups in Hm as (l' & dom & Hl' & _ & Heq & Hdom & Hrest).
  unfold group. rewrite Hl'. cbn [default from_option id].
  unfold address in Heq.
  assert (Hnot_at : ¬ In (ord "@") domain).
  { intros Hin%list_elem_of_In.
    by apply (proj1 (Forall_forall _ _) domain_no_at _ Hin). }
  assert (Hnot_at' : ¬ In (ord "@") (dom ++ rest)).
  { intros [Hin|Hin]%in_app_or; [done|].
    destruct Hrest as [->| ->]; [done|]. by destruct Hin. }
  by destruct (last_split_unique _ _ _ _ _ Heq Hnot_at Hnot_at') as [-> _].
Qed.

Lemma conventional_not_quoted : startswith local [dquote] = false.
Proof.
  unfold local, dotted. pose proof Ha0 as [Hne Ha]%atom_ordinary.
  destruct Ha as [|c a Hc _]; [done|].
  rewrite <-app_comm_cons. apply startswith_cons_ne.
  unfold ordinary, dquote in *. lia.
Qed.

(** The format validator on a conventional address: valid, no error, and
    the warning about plus addressing when the local part has a ['+']. *)
Lemma conventional_format :
  (length address ≤ 254)%nat →
  (length local ≤ 64)%nat →
  EmailValidator._validate_format (VStr address)
  = (true, [],
     EmailValidator.append_if (contains (lit "+") local)
       "Plus addressing detected - ensure your system supports this" []).
Proof.
  intros Hlen Hllen.
  assert (Hne : address ≠ []).
  { unfold address, local, dotted. destruct Ha0 as [Hne _]. by destruct a0. }
  destruct conventional_match as (m & Hm & Hgroup).
  rewrite <-conventional_strip in Hm.
  rewrite (format_matched address m Hne Hm). cbv zeta.
  rewrite Hgroup. unfold early_errors. cbv zeta.
  rewrite conventional_strip.
  rewrite conventional_no_dots, conventional_no_space, conventional_one_at,
    conventional_no_at_dot, conventional_not_quoted.
  assert (Hlen' : (EmailValidator.MAX_EMAIL_LENGTH <? length address)%nat = false).
  { apply Nat.ltb_ge. unfold EmailValidator.MAX_EMAIL_LENGTH. lia. }
  assert (Hllen' : (EmailValidator.MAX_LOCAL_LENGTH <? length local)%nat = false).
  { apply Nat.ltb_ge. unfold EmailValidator.MAX_LOCAL_LENGTH. lia. }
  rewrite Hlen', Hllen'. cbn [EmailValidator.append_if andb length Nat.eqb].
  rewrite bool_decide_eq_false_2 by (intros Hneq; by apply Hneq). done.
Qed.

End Address.

(** X23. Every conventional address is valid: atoms of [atext] characters
    joined by dots, ['@'], one or more labels each followed by a dot, and
    a top-level domain of two or more letters, within the limits of 254
    characters in all and 64 for the local part.  A validator that does
    not check MX records returns a valid result without error, whose only
    possible warning is the one about plus addressing. *)
Theorem conventional_address_is_valid {S : Type} `{!DNSServiceBase S}
    (self : EmailValidator S) (a0 : str) (atoms labels : list str) (tld : str) :
  check_mx self = false →
  atom a0 → Forall atom atoms →
  labels ≠ [] → Forall label labels →
  Forall (λ c, alpha c = true) tld → (2 ≤ length tld)%nat →
  let local := dotted a0 atoms in
  let address := local ++ ord "@" :: labelled labels tld in
  (length address ≤ 254)%nat →
  (length local ≤ 64)%nat →
  let r := (EmailValidator.validate self (VStr address)).1 in
  is_valid r = true
  ∧ errors r = []
  ∧ warnings r
    = (if contains (lit "+") local
       then ["Plus addressing detected - ensure your system supports this"]
       else []).
Proof.
  intros Hflag Ha0 Hatoms Hl0 Hlabels Htld Htld2 local address Hlen Hllen. cbn zeta.
  pose proof (conventional_format a0 atoms labels tld Ha0 Hatoms Hl0 Hlabels Htld Htld2
                Hlen Hllen) as Hfmt.
  fold local address in Hfmt.
  rewrite validate_skips_mx by (by rewrite Hflag, andb_false_r).
  unfold format_valid, format_errors, format_warnings. rewrite Hfmt.
  cbn [fst snd is_valid errors warnings].
  by destruct (contains (lit "+") local).
Qed.

End Conventional.

(** ** Instances of the further properties *)

Lemma too_long_is_rejected_witness :
  let r := (EmailValidator.validate offline (VStr (replicate 255 (ord "a")))).1 in
  is_valid r = false
  ∧ head (errors r) = Some "Email exceeds maximum length of 254 characters".
Proof.
  apply (too_long_is_rejected offline (replicate 255 (ord "a"))).
  apply Nat.ltb_lt. vm_compute. reflexivity.
Defined.

Lemma several_ats_rejected_witness :
  let r := (EmailValidator.validate offline (VStr (lit "user@@domain.com"))).1 in
  is_valid r = false ∧ In "Email contains multiple '@' symbols" (errors r).
Proof.
  apply (several_ats_rejected offline (lit "user@@domain.com")).
  apply Nat.ltb_lt. vm_compute. reflexivity.
Defined.

Lemma forbidden_text_rejected_witness :
  let r := (EmailValidator.validate offline (VStr (lit "user@domain..com"))).1 in
  is_valid r = false ∧ In "Email contains consecutive dots" (errors r).
Proof.
  apply (forbidden_text_rejected offline (lit "user@domain..com") (lit "..")).
  - left. reflexivity.
  - vm_compute. reflexivity.
Defined.

Lemma missing_at_rejected_witness :
  let r := (EmailValidator.validate offline (VStr (lit "plainaddress"))).1 in
  is_valid r = false ∧ last (errors r) = Some "Email is missing '@' symbol".
Proof.
  apply (missing_at_rejected offline (lit "plainaddress")).
  - discriminate.
  - vm_compute. intuition discriminate.
Defined.

Lemma accepted_shape_witness :
  let s := lit " john.doe@mail.example.org " in
  ∃ l pre tld,
    strip s = l ++ ord "@" :: pre ++ ord "." :: tld
    ∧ (1 ≤ length l ≤ 64)%nat
    ∧ count (ord "@") (strip s) = 1%nat
    ∧ Forall (λ c, alnum_hyphen c = true ∨ c = ord ".") pre
    ∧ Forall (λ c, alpha c = true) tld ∧ (2 ≤ length tld)%nat
    ∧ (length s ≤ 254)%nat
    ∧ contains (lit "..") (strip s) = false
    ∧ contains (lit " ") (strip s) = false.
Proof.
  apply (accepted_shape (lit " john.doe@mail.example.org ")).
  vm_compute. reflexivity.
Defined.

Lemma plus_warning_iff_witness :
  In (ord "+") (lit "user+tag")
  ↔ In "Plus addressing detected - ensure your system supports this"
       (format_warnings (VStr (lit "user+tag@example.com"))).
Proof.
  apply (plus_warning_iff (lit "user+tag@example.com") (lit "user+tag")
           (lit "example.com")).
  - vm_compute. reflexivity.
  - vm_compute. reflexivity.
  - vm_compute. intuition discriminate.
Defined.

Lemma whitespace_warning_iff_witness :
  In "Email contains leading or trailing whitespace"
    (format_warnings (VStr (lit " not an address")))
  ↔ strip (lit " not an address") ≠ lit " not an address".
Proof.
  apply (whitespace_warning_iff (lit " not an address")). discriminate.
Defined.

Lemma verdict_of_trimmed_witness :
  let s := lit "  user@example.com " in
  format_valid (VStr s) = format_valid (VStr (strip s))
  ∧ (strip s ≠ [] → format_errors (VStr s) = format_errors (VStr (strip s))).
Proof.
  apply (verdict_of_trimmed (lit "  user@example.com ")).
  apply Nat.leb_le. vm_compute. reflexivity.
Defined.

Lemma empty_side_diagnosed_witness :
  let r := (EmailValidator.validate offline (VStr (lit "@"))).1 in
  is_valid r = false
  ∧ (@nil N = [] → In "Local part (before @) is empty" (errors r))
  ∧ (@nil N = [] → In "Domain part (after @) is empty" (errors r)).
Proof.
  apply (empty_side_diagnosed offline (lit "@") [] []).
  - vm_compute. reflexivity.
  - simpl. tauto.
  - simpl. tauto.
  - left. reflexivity.
Defined.

Lemma missing_tld_diagnosed_witness :
  let r := (EmailValidator.validate offline (VStr (lit "user@localhost"))).1 in
  is_valid r = false
  ∧ last (errors r) = Some "Domain is missing TLD (top-level domain)".
Proof.
  apply (missing_tld_diagnosed offline (lit "user@localhost") (lit "user")
           (lit "localhost")).
  - vm_compute. reflexivity.
  - vm_compute. intuition discriminate.
  - vm_compute. intuition discriminate.
  - discriminate.
  - apply Nat.leb_le. vm_compute. reflexivity.
  - vm_compute. intuition discriminate.
Defined.

Lemma lookup_outcome_witness :
  let self := with_mock [("gmail.com", true); ("no-mx.test", false)] in
  let r1 := (EmailValidator.validate self (VStr (lit "user@gmail.com"))).1 in
  let r2 := (EmailValidator.validate self (VStr (lit "user@no-mx.test"))).1 in
  (is_valid r1 = true ∧ mx_valid r1 = Some true ∧ errors r1 = []
   ∧ warnings r1 = format_warnings (VStr (lit "user@gmail.com")))
  ∧ (is_valid r2 = false ∧ mx_valid r2 = Some false ∧ errors r2 = []
     ∧ warnings r2 = format_warnings (VStr (lit "user@no-mx.test"))
                     ++ ["No MX record found for domain"]).
Proof.
  assert (Hfv1 : format_valid (VStr (lit "user@gmail.com")) = true)
    by (vm_compute; reflexivity).
  assert (Hfv2 : format_valid (VStr (lit "user@no-mx.test")) = true)
    by (vm_compute; reflexivity).
  split.
  - exact (lookup_outcome (with_mock [("gmail.com", true); ("no-mx.test", false)])
             (MockDNSService.__init__
                (Some (list_to_map [(lit "gmail.com", true); (lit "no-mx.test", false)])))
             (lit "user@gmail.com") Hfv1 eq_refl eq_refl).
  - exact (lookup_outcome (with_mock [("gmail.com", true); ("no-mx.test", false)])
             (MockDNSService.__init__
                (Some (list_to_map [(lit "gmail.com", true); (lit "no-mx.test", false)])))
             (lit "user@no-mx.test") Hfv2 eq_refl eq_refl).
Defined.

Lemma batch_without_mx_witness :
  let L := [VStr (lit "user@example.com"); VNone; VStr (lit "user@")] in
  EmailValidator.validate_batch offline L
  = (map (λ e, (EmailValidator.validate offline e).1) L, offline).
Proof.
  apply (batch_without_mx offline
           [VStr (lit "user@example.com"); VNone; VStr (lit "user@")]).
  reflexivity.
Defined.

Lemma batch_lookups_logged_witness :
  let self := with_mock [("gmail.com", true)] in
  let L := [VStr (lit "user@gmail.com"); VStr (lit "no at sign");
            VStr (lit "user@no-mx.test ")] in
  (EmailValidator.validate_batch self L).2
  = {| check_mx := true;
       dns_service :=
         Some {| responses := list_to_map [(lit "gmail.com", true)];
                 call_history := [] ++ lookups L |} |}.
Proof.
  exact (batch_lookups_logged (with_mock [("gmail.com", true)])
           (MockDNSService.__init__ (Some (list_to_map [(lit "gmail.com", true)])))
           [VStr (lit "user@gmail.com"); VStr (lit "no at sign");
            VStr (lit "user@no-mx.test ")] eq_refl eq_refl).
Defined.

Lemma to_dict_faithful_witness :
  let r := (EmailValidator.validate offline (VStr (lit "user@example.com"))).1 in
  r = r
  ∧ dom (ValidationResult.to_dict r)
    = ({["is_valid"; "email"; "errors"; "warnings"; "mx_valid"]} : gset string).
Proof.
  apply (to_dict_faithful
           (EmailValidator.validate offline (VStr (lit "user@example.com"))).1
           (EmailValidator.validate offline (VStr (lit "user@example.com"))).1).
  reflexivity.
Defined.

Lemma batch_endpoint_counts_witness :
  let emails := [VStr (lit "user@example.com"); VStr (lit "user@"); VInt 7] in
  let req := {| app.is_json := true;
                app.get_json := Some {[ lit "emails" := VList emails ]};
                app.args := ∅ |} in
  let results := (EmailValidator.validate_batch offline emails).1 in
  ∃ valid_count invalid_count,
    (app.validate_batch offline req).1
    = (app.BatchBody (ValidationResult.to_dict <$> results)
         (Z.of_nat (length emails)) valid_count invalid_count, 200%Z)
    ∧ valid_count = Z.of_nat (length (filter (λ r, is_valid r = true) results))
    ∧ (0 ≤ valid_count)%Z ∧ (0 ≤ invalid_count)%Z
    ∧ (valid_count + invalid_count = Z.of_nat (length emails))%Z.
Proof.
  apply (batch_endpoint_counts offline
           {| app.is_json := true;
              app.get_json :=
                Some {[ lit "emails" :=
                          VList [VStr (lit "user@example.com"); VStr (lit "user@");
                                 VInt 7] ]};
              app.args := ∅ |}
           {[ lit "emails" :=
                VList [VStr (lit "user@example.com"); VStr (lit "user@"); VInt 7] ]}).
  - reflexivity.
  - reflexivity.
  - vm_compute. reflexivity.
  - discriminate.
Defined.

Lemma error_status_leaves_validator_witness :
  let self := with_mock [("gmail.com", true)] in
  let no_json := {| app.is_json := false; app.get_json := None; app.args := ∅ |} in
  let no_field := {| app.is_json := true; app.get_json := Some ∅; app.args := ∅ |} in
  (app.validate_email self no_json).2 = self
  ∧ (app.validate_batch self no_field).2 = self
  ∧ (app.quick_check self no_field).2 = self.
Proof.
  cbn zeta. split; [|split].
  - apply (proj1 (error_status_leaves_validator (with_mock [("gmail.com", true)])
                    {| app.is_json := false; app.get_json := None; app.args := ∅ |})).
    vm_compute. discriminate.
  - apply (proj1 (proj2 (error_status_leaves_validator
                           (with_mock [("gmail.com", true)])
                           {| app.is_json := true; app.get_json := Some ∅;
                              app.args := ∅ |}))).
    vm_compute. discriminate.
  - apply (proj2 (proj2 (error_status_leaves_validator
                           (with_mock [("gmail.com", true)])
                           {| app.is_json := true; app.get_json := Some ∅;
                              app.args := ∅ |}))).
    vm_compute. discriminate.
Defined.

Lemma quick_check_agrees_witness :
  let s := lit "user@gmail.com" in
  let self := with_mock [("gmail.com", true)] in
  let req_q := {| app.is_json := false; app.get_json := None;
                  app.args := {[ lit "email" := s ]} |} in
  let req_v := {| app.is_json := true;
                  app.get_json := Some {[ lit "email" := VStr s ]};
                  app.args := ∅ |} in
  ∃ b d,
    (app.quick_check self req_q).1 = (app.QuickBody s b, 200%Z)
    ∧ (app.validate_email self req_v).1 = (app.ResultBody d, 200%Z)
    ∧ d !! "is_valid" = Some (VBool b)
    ∧ d !! "email" = Some (VStr s)
    ∧ (app.quick_check self req_q).2 = (app.validate_email self req_v).2.
Proof.
  apply (quick_check_agrees (with_mock [("gmail.com", true)])
           {| app.is_json := false; app.get_json := None;
              app.args := {[ lit "email" := lit "user@gmail.com" ]} |}
           {| app.is_json := true;
              app.get_json := Some {[ lit "email" := VStr (lit "user@gmail.com") ]};
              app.args := ∅ |}
           {[ lit "email" := VStr (lit "user@gmail.com") ]}
           (lit "user@gmail.com")).
  - vm_compute. reflexivity.
  - reflexivity.
  - reflexivity.
  - vm_compute. reflexivity.
Defined.

Lemma conventional_address_is_valid_witness :
  let local := dotted (lit "john") [lit "doe+news"] in
  let address :=
    local ++ ord "@" :: labelled [lit "mail"; lit "my-host"; lit "x"] (lit "org") in
  let r := (EmailValidator.validate offline (VStr address)).1 in
  is_valid r = true
  ∧ errors r = []
  ∧ warnings r
    = (if contains (lit "+") local
       then ["Plus addressing detected - ensure your system supports this"]
       else []).
Proof.
  apply (conventional_address_is_valid offline (lit "john") [lit "doe+news"]
           [lit "mail"; lit "my-host"; lit "x"] (lit "org")).
  - reflexivity.
  - split; [discriminate|]. apply (bool_decide_unpack _). vm_compute. exact I.
  - apply Forall_singleton. split; [discriminate|].
    apply (bool_decide_unpack _). vm_compute. exact I.
  - discriminate.
  - apply Forall_cons_2; [|apply Forall_cons_2; [|apply Forall_singleton]].
    + right. exists (ord "m"), (lit "ai"), (ord "l").
      split; [reflexivity|]. split; [reflexivity|].
      split; [apply (bool_decide_unpack _); vm_compute; exact I|].
      split; [simpl; lia|reflexivity].
    + right. exists (ord "m"), (lit "y-hos"), (ord "t").
      split; [reflexivity|]. split; [reflexivity|].
      split; [apply (bool_decide_unpack _); vm_compute; exact I|].
      split; [simpl; lia|reflexivity].
    + left. exists (ord "x"). split; reflexivity.
  - apply (bool_decide_unpack _). vm_compute. exact I.
  - apply Nat.leb_le. vm_compute. reflexivity.
  - apply Nat.leb_le. vm_compute. reflexivity.
  - apply Nat.leb_le. vm_compute. reflexivity.
Defined.
